(** * The recommendation cache and aggregation pipeline of the movie backend

    A shallow embedding of [services/ml.service.js] (the expiring cache and
    the [MLService] class) and of the enrichment block shared by the three
    handlers of [routes/recommendations.js].

    Conventions of the embedding:
    - JavaScript integers (user ids, movie ids, limits, millisecond
      timestamps, ttl seconds) are [Z], and a template literal renders them
      in decimal; scores are binary64 floats, Rocq's primitive [float], so
      [0.9 - i * 0.05] rounds exactly as it does in the program;
    - the handlers always pass a limit, so the default [limit = 10] of the
      methods is not modelled;
    - a payload of the ranking service is an object of the shape
      [{ movie_ids, scores, method }], whatever its lists hold; being an
      object it is truthy, so [if (cached)] tests for a hit;
    - [cache.data], a plain object used as a dictionary, is a
      [gmap string CacheItem]; every key the service builds contains a
      colon, so none of them is the name of an inherited property;
    - an [async] method is a computation over the cache that may return or
      throw (a rejected promise); what the outside world answers during one
      call (the clock, the SQLite reads, the HTTP calls) is a [world]
      record given to the call, and calls are taken one after the other;
    - [console.log] and [console.error] lines are left out. *)

Set Warnings "-inexact-float".

From Stdlib Require Import ZArith Floats Ascii.
From stdpp Require Import gmap strings list pretty.

Local Open Scope Z_scope.

(** ** JavaScript library functions the service relies on *)

Module JS.

(** What a JavaScript computation completes with. *)
Inductive js_error :=
| AxiosError (message : string)
| SqliteError (message : string)
| RangeError (message : string).

Definition message (e : js_error) : string :=
  match e with
  | AxiosError m | SqliteError m | RangeError m => m
  end.

Inductive completion (A : Type) :=
| Returned (a : A)
| Thrown (e : js_error).
Arguments Returned {A} a.
Arguments Thrown {A} e.

Definition is_returned {A} (c : completion A) : bool :=
  match c with Returned _ => true | Thrown _ => false end.

Definition is_thrown {A} (c : completion A) : bool :=
  negb (is_returned c).

(** [arr.slice(0, end)]: a negative [end] counts from the back, and the
    bound is clamped to the array. *)
Definition slice0 {A} (arr : list A) (end_ : Z) : list A :=
  let len := Z.of_nat (length arr) in
  let final := if end_ <? 0 then Z.max (len + end_) 0 else Z.min end_ len in
  take (Z.to_nat final) arr.

(** The abstract operation ToLength on an integral Number. *)
Definition ToLength (n : Z) : Z :=
  if n <=? 0 then 0 else Z.min n (2 ^ 53 - 1).

(** [Array.from({ length: n }, (_, i) => f(i))]: the array-like has no
    iterator, so the result is built by [new Array(len)], which throws a
    RangeError for a length that is not an unsigned 32-bit integer. *)
Definition Array_from_length {A} (n : Z) (f : Z → A) : completion (list A) :=
  let len := ToLength n in
  if 2 ^ 32 - 1 <? len then Thrown (RangeError "Invalid array length")
  else Returned (f <$> seqZ 0 len).

(** [s.includes(sub)]: [sub] occurs in [s] at some position. *)
Fixpoint includes (s sub : string) : bool :=
  String.prefix sub s ||
  match s with
  | EmptyString => false
  | String _ s' => includes s' sub
  end.

(** An index as a Number. *)
Definition Number_of_index (i : Z) : float :=
  PrimFloat.of_uint63 (Uint63.of_Z i).

End JS.
Export JS.

(** ** Data model *)

(** The payload of the ranking service, [{ movie_ids, scores, method }]. *)
Record ScoringResult := {
  movie_ids : list Z;
  scores : list float;
  method : string
}.

(** One entry of [cache.data]: [{ value, expiry }]. *)
Record CacheItem := {
  value : ScoringResult;
  expiry : Z
}.

(** ** The expiring cache *)

Module cache.

Definition set (key : string) (v : ScoringResult) (ttlSeconds now : Z)
    (data : gmap string CacheItem) : gmap string CacheItem :=
  <[key := {| value := v; expiry := now + ttlSeconds * 1000 |}]> data.

Definition get (key : string) (now : Z) (data : gmap string CacheItem)
    : option ScoringResult * gmap string CacheItem :=
  match data !! key with
  | None => (None, data)
  | Some item =>
      if now >? expiry item then (None, delete key data)
      else (Some (value item), data)
  end.

Definition clear (data : gmap string CacheItem) : gmap string CacheItem := ∅.

End cache.

(** ** Effects of one call

    The state a call of the service can change is [cache.data]; the requests
    it sends to the ranking service are recorded beside it, so that a theorem
    can say that none was sent. *)

Record rating_row := { rating_movie_id : Z; rating : float }.
Record like_row := { like_movie_id : Z }.

(** The JSON bodies posted to the ranking service. *)
Inductive ml_body :=
| RecommendationsBody (user_id : Z) (ratings : list rating_row)
    (liked_movies : list Z) (n_recommendations : Z) (method : string)
| SimilarBody (movie_id n_recommendations : Z)
| CollaborativeBody (user_id : Z) (ratings : list rating_row)
    (n_recommendations : Z)
| NoBody.

(** One HTTP call to the ranking service: the path under [PYTHON_ML_URL],
    the body and the timeout in milliseconds. *)
Record ml_call := { path : string; body : ml_body; timeout : Z }.

(** A flat JSON object of string fields, as the health endpoint answers. *)
Definition json_object := list (string * string).

(** What the outside world answers during one call of the service. *)
Record world := {
  (** [Date.now()] as read by [cache.get], at the start of the call *)
  now_at_get : Z;
  (** [Date.now()] as read by [cache.set], after the awaits *)
  now_at_set : Z;
  (** [dbAsync.all('SELECT movie_id, rating FROM ratings ...', [userId])] *)
  select_ratings : Z → completion (list rating_row);
  (** [dbAsync.all('SELECT movie_id FROM likes ...', [userId])] *)
  select_likes : Z → completion (list like_row);
  (** [axios.post(url, body, { timeout })], resolved with [response.data] *)
  axios_post : ml_call → completion ScoringResult;
  (** [axios.get(PYTHON_ML_URL + '/health', { timeout: 3000 })] *)
  axios_get : ml_call → completion json_object
}.

Record state := {
  data : gmap string CacheItem;
  sent : list ml_call
}.

(** Computations that read and write the state and may throw. *)
Definition M (A : Type) : Type := state → completion A * state.

Definition ret {A} (a : A) : M A := λ s, (Returned a, s).

Definition throw {A} (e : js_error) : M A := λ s, (Thrown e, s).

Definition bind {A B} (m : M A) (k : A → M B) : M B :=
  λ s, match m s with
       | (Returned a, s') => k a s'
       | (Thrown e, s') => (Thrown e, s')
       end.

(** [try { body } catch (error) { handler }]: the handler runs in the state
    the body left behind. *)
Definition try_catch {A} (body : M A) (handler : js_error → M A) : M A :=
  λ s, match body s with
       | (Returned a, s') => (Returned a, s')
       | (Thrown e, s') => handler e s'
       end.

(** [await] of a promise the world settles. *)
Definition await {A} (c : completion A) : M A := λ s, (c, s).

Declare Scope js_scope.
Delimit Scope js_scope with js.
Notation "x <~ m ;; k" := (bind m (λ x, k))
  (at level 100, m at next level, right associativity) : js_scope.
Notation "m ;;; k" := (bind m (λ _, k))
  (at level 100, right associativity) : js_scope.
Local Open Scope js_scope.

Definition cache_get (w : world) (key : string) : M (option ScoringResult) :=
  λ s, let '(r, d) := cache.get key (now_at_get w) (data s) in
       (Returned r, {| data := d; sent := sent s |}).

Definition cache_set (w : world) (key : string) (v : ScoringResult)
    (ttlSeconds : Z) : M unit :=
  λ s, (Returned tt,
        {| data := cache.set key v ttlSeconds (now_at_set w) (data s);
           sent := sent s |}).

Definition post (w : world) (c : ml_call) : M ScoringResult :=
  λ s, (axios_post w c, {| data := data s; sent := sent s ++ [c] |}).

Definition get_health (w : world) (c : ml_call) : M json_object :=
  λ s, (axios_get w c, {| data := data s; sent := sent s ++ [c] |}).

(** ** The scoring client: class [MLService] *)

Module MLService.

(** [`rec:user:${userId}:${limit}`] *)
Definition rec_key (userId limit : Z) : string :=
  "rec:user:" +:+ pretty userId +:+ ":" +:+ pretty limit.

(** [`similar:${movieId}:${limit}`] *)
Definition similar_key (movieId limit : Z) : string :=
  "similar:" +:+ pretty movieId +:+ ":" +:+ pretty limit.

(** [`user:${userId}`] *)
Definition user_fragment (userId : Z) : string :=
  "user:" +:+ pretty userId.

(** The list the personalized fallback is cut from. *)
Definition popular_ids : list Z :=
  [550; 278; 680; 155; 13; 423; 769; 24428; 329; 107].

(** [(_, i) => 0.9 - i * 0.05] *)
Definition fallback_score (i : Z) : float :=
  (0.9 - Number_of_index i * 0.05)%float.

(** The [catch] block of [getPersonalizedRecommendations]. *)
Definition personalized_fallback (limit : Z) : M ScoringResult :=
  let ids := slice0 popular_ids limit in
  scs <~ await (Array_from_length limit fallback_score) ;;
  ret {| movie_ids := ids; scores := scs; method := "fallback" |}.

Definition empty_result (tag : string) : ScoringResult :=
  {| movie_ids := []; scores := []; method := tag |}.

Definition getPersonalizedRecommendations (w : world) (userId limit : Z)
    : M ScoringResult :=
  try_catch
    (let cacheKey := rec_key userId limit in
     cached <~ cache_get w cacheKey ;;
     match cached with
     | Some hit => ret hit
     | None =>
         ratings <~ await (select_ratings w userId) ;;
         likes <~ await (select_likes w userId) ;;
         result <~ post w
           {| path := "/api/ml/recommendations";
              body := RecommendationsBody userId ratings
                        (like_movie_id <$> likes) limit "hybrid";
              timeout := 10000 |} ;;
         cache_set w cacheKey result 3600 ;;;
         ret result
     end)
    (λ error, personalized_fallback limit).

Definition getSimilarMovies (w : world) (movieId limit : Z)
    : M ScoringResult :=
  try_catch
    (let cacheKey := similar_key movieId limit in
     cached <~ cache_get w cacheKey ;;
     match cached with
     | Some hit => ret hit
     | None =>
         result <~ post w
           {| path := "/api/ml/similar";
              body := SimilarBody movieId limit;
              timeout := 5000 |} ;;
         cache_set w cacheKey result 7200 ;;;
         ret result
     end)
    (λ error, ret (empty_result "fallback")).

Definition getCollaborativeRecommendations (w : world) (userId limit : Z)
    : M ScoringResult :=
  try_catch
    (ratings <~ await (select_ratings w userId) ;;
     if (length ratings =? 0)%nat then ret (empty_result "no_data")
     else
       post w
         {| path := "/api/ml/collaborative";
            body := CollaborativeBody userId ratings limit;
            timeout := 10000 |})
    (λ error, ret (empty_result "fallback")).

(** [Object.keys(cache.data).forEach(key => { if (key.includes(...))
    delete cache.data[key] })] *)
Definition clear_keys (fragment : string) (keys : list string)
    (d : gmap string CacheItem) : gmap string CacheItem :=
  foldl (λ acc key, if includes key fragment then delete key acc else acc)
        d keys.

Definition clearUserCache (userId : Z) : M unit :=
  λ s, (Returned tt,
        {| data := clear_keys (user_fragment userId)
                     (elements (dom (data s))) (data s);
           sent := sent s |}).

Definition checkHealth (w : world) : M json_object :=
  try_catch
    (get_health w {| path := "/health"; body := NoBody; timeout := 3000 |})
    (λ error, ret [("status", "unhealthy"); ("error", message error)]).

End MLService.

(** ** The enrichment aggregator: [routes/recommendations.js] *)

Module routes.

(** [{ ...response.data, <field>: mlResult.scores[index] }]; a score read
    past the end of [scores] is [undefined], here [None]. *)
Record EnrichedItem := {
  details : json_object;
  score_field : string;
  score : option float
}.

(** The bodies the handlers answer with. *)
Inductive response :=
| Recommendations (recommendations : list EnrichedItem) (method : string)
    (count : nat)
| SimilarMovies (similar_movies : list EnrichedItem) (count : nat)
| NotEnoughData (message : string) (recommendations : list EnrichedItem)
| Status500 (error : string).

(** [parseInt(req.query.limit, 10) || 10]: an absent or unreadable
    parameter is [NaN], and [NaN] and [0] are both falsy. *)
Definition limit_of_query (parsed : option Z) : Z :=
  match parsed with
  | Some n => if n =? 0 then 10 else n
  | None => 10
  end.

Section aggregator.

(** [axios.get(TMDB_BASE_URL + '/movie/' + id)], resolved with
    [response.data]. *)
Variable fetch : Z → completion json_object.
Variable field : string.
Variable mlResult : ScoringResult.

(** The callback given to [mlResult.movie_ids.map]. *)
Definition enrich_one (index : nat) (movieId : Z) : option EnrichedItem :=
  match fetch movieId with
  | Returned details_ =>
      Some {| details := details_; score_field := field;
              score := scores mlResult !! index |}
  | Thrown _ => None
  end.

(** [await Promise.all(mlResult.movie_ids.map(...))] *)
Definition movieDetails : list (option EnrichedItem) :=
  imap enrich_one (movie_ids mlResult).

(** [movieDetails.filter(Boolean)] *)
Definition validMovies : list EnrichedItem :=
  omap id movieDetails.

End aggregator.

Definition personalized (w : world) (fetch : Z → completion json_object)
    (userId limit : Z) (s : state) : response * state :=
  match MLService.getPersonalizedRecommendations w userId limit s with
  | (Returned mlResult, s') =>
      let valid := validMovies fetch "recommendation_score" mlResult in
      (Recommendations valid (method mlResult) (length valid), s')
  | (Thrown _, s') => (Status500 "Failed to get recommendations", s')
  end.

Definition similar (w : world) (fetch : Z → completion json_object)
    (movieId limit : Z) (s : state) : response * state :=
  match MLService.getSimilarMovies w movieId limit s with
  | (Returned mlResult, s') =>
      let valid := validMovies fetch "similarity_score" mlResult in
      (SimilarMovies valid (length valid), s')
  | (Thrown _, s') => (Status500 "Failed to get similar movies", s')
  end.

Definition collaborative (w : world) (fetch : Z → completion json_object)
    (userId limit : Z) (s : state) : response * state :=
  match MLService.getCollaborativeRecommendations w userId limit s with
  | (Returned mlResult, s') =>
      if (length (movie_ids mlResult) =? 0)%nat then
        (NotEnoughData "Not enough data. Please rate more movies!" [], s')
      else
        let valid := validMovies fetch "predicted_rating" mlResult in
        (Recommendations valid "collaborative_filtering" (length valid), s')
  | (Thrown _, s') =>
      (Status500 "Failed to get collaborative recommendations", s')
  end.

End routes.

(** ** Sequences of calls *)

Inductive operation :=
| Personalized (userId limit : Z)
| Similar (movieId limit : Z)
| Collaborative (userId limit : Z)
| ClearUser (userId : Z)
| Health.

(** One call of the service, its result forgotten: the state it leaves. *)
Definition step (s : state) (call : world * operation) : state :=
  match call with
  | (w, Personalized u l) => (MLService.getPersonalizedRecommendations w u l s).2
  | (w, Similar m l) => (MLService.getSimilarMovies w m l s).2
  | (w, Collaborative u l) => (MLService.getCollaborativeRecommendations w u l s).2
  | (_, ClearUser u) => (MLService.clearUserCache u s).2
  | (w, Health) => (MLService.checkHealth w s).2
  end.

Definition run (calls : list (world * operation)) (s : state) : state :=
  foldl step s calls.

(** The module as loaded: [data: {}] and nothing sent yet. *)
Definition initial : state := {| data := ∅; sent := [] |}.

(** Every request to the ranking service fails during this call. *)
Definition service_down (w : world) : Prop :=
  (∀ c, is_thrown (axios_post w c) = true) ∧
  (∀ c, is_thrown (axios_get w c) = true).


(** ** The calls the service makes, and concrete worlds *)

Import MLService.

Definition recommendations_call (userId limit : Z) (ratings : list rating_row)
    (likes : list like_row) : ml_call :=
  {| path := "/api/ml/recommendations";
     body := RecommendationsBody userId ratings (like_movie_id <$> likes)
               limit "hybrid";
     timeout := 10000 |}.

Definition similar_call (movieId limit : Z) : ml_call :=
  {| path := "/api/ml/similar"; body := SimilarBody movieId limit;
     timeout := 5000 |}.

Definition collaborative_call (userId limit : Z) (ratings : list rating_row)
    : ml_call :=
  {| path := "/api/ml/collaborative";
     body := CollaborativeBody userId ratings limit; timeout := 10000 |}.

Definition health_call : ml_call :=
  {| path := "/health"; body := NoBody; timeout := 3000 |}.

Definition with_data (s : state) (d : gmap string CacheItem) : state :=
  {| data := d; sent := sent s |}.

Definition with_sent (s : state) (c : ml_call) : state :=
  {| data := data s; sent := sent s ++ [c] |}.

(** A payload of the ranking service. *)
Definition sample_result : ScoringResult :=
  {| movie_ids := [603; 604]; scores := [0.5; 0.25]%float;
     method := "hybrid" |}.

Definition sample_ratings : list rating_row :=
  [{| rating_movie_id := 603; rating := 4.5%float |}].

Definition sample_likes : list like_row := [{| like_movie_id := 604 |}].

(** The ranking service answers; the database answers. *)
Definition online : world :=
  {| now_at_get := 1000; now_at_set := 1200;
     select_ratings := λ _, Returned sample_ratings;
     select_likes := λ _, Returned sample_likes;
     axios_post := λ _, Returned sample_result;
     axios_get := λ _, Returned [("status", "healthy")] |}.

(** The ranking service times out on every request; the database answers. *)
Definition offline : world :=
  {| now_at_get := 1000; now_at_set := 1200;
     select_ratings := λ _, Returned sample_ratings;
     select_likes := λ _, Returned sample_likes;
     axios_post := λ _, Thrown (AxiosError "timeout of 10000ms exceeded");
     axios_get := λ _, Thrown (AxiosError "timeout of 3000ms exceeded") |}.

(** The ranking service answers; the reads of the database are rejected. *)
Definition database_down : world :=
  {| now_at_get := 1000; now_at_set := 1200;
     select_ratings := λ _, Thrown (SqliteError "SQLITE_BUSY: database is locked");
     select_likes := λ _, Thrown (SqliteError "SQLITE_BUSY: database is locked");
     axios_post := λ _, Returned sample_result;
     axios_get := λ _, Returned [("status", "healthy")] |}.

(** A cache holding one personalized entry each for users 42 and 420 and one
    similarity entry, all set at time 0. *)
Definition three_entries : state :=
  {| data :=
       cache.set (rec_key 420 10) sample_result 3600 0
         (cache.set (rec_key 42 10) sample_result 3600 0
            (cache.set (similar_key 603 10) sample_result 7200 0 ∅));
     sent := [] |}.

(** ** Vocabulary of the statements *)

(** The invariant of a scoring result: one score per id. *)
Definition aligned (r : ScoringResult) : Prop :=
  length (movie_ids r) = length (scores r).

(** The request in the goal fails, by the hypothesis [Hpost] that all do. *)
Ltac post_fails Hpost :=
  cbv zeta;
  match goal with
  | |- context [axios_post ?w ?c] =>
      let H := fresh "H" in
      pose proof (Hpost c) as H;
      destruct (axios_post w c); [discriminate H | clear H]
  end.

(** The payload of a settled metadata fetch, if it succeeded. *)
Definition fetched {A} (c : completion A) : option A :=
  match c with Returned a => Some a | Thrown _ => None end.

(** The enriched item of rank [i], if there is an id of that rank and its
    fetch succeeded: the fetched details and the score of the same rank. *)
Definition survivor (fetch : Z → completion json_object) (field : string)
    (r : ScoringResult) (i : nat) : option routes.EnrichedItem :=
  movieId ← movie_ids r !! i;
  details_ ← fetched (fetch movieId);
  Some {| routes.details := details_; routes.score_field := field;
          routes.score := scores r !! i |}.

(** A metadata service that knows every movie but number 2. *)
Definition tmdb_without_2 (movieId : Z) : completion json_object :=
  if movieId =? 2 then Thrown (AxiosError "Request failed with status code 404")
  else Returned [("id", pretty movieId)].

Definition ranked_1_2_3 (tag : string) : ScoringResult :=
  {| movie_ids := [1; 2; 3]; scores := [0.9; 0.8; 0.7]%float; method := tag |}.

(** ** Characters of the cache keys *)

(** The characters a number is rendered with. *)
Definition digit_or_dash (c : Ascii.ascii) : bool :=
  bool_decide (c ∈ ["0"; "1"; "2"; "3"; "4"; "5"; "6"; "7"; "8"; "9"; "-"]%char).

(** Every character of [s] satisfies [p]. *)
Fixpoint all_chars (p : Ascii.ascii → bool) (s : string) : bool :=
  match s with
  | EmptyString => true
  | String c s' => p c && all_chars p s'
  end.

(** [c] is another character than [x]. *)
Definition other_than (x c : Ascii.ascii) : bool := negb (Ascii.eqb x c).

(** ** Vocabulary for sequences of calls *)

(** The entry [item] under [k] is what [call] stores when the ranking
    service answers it: the payload answered, under the key of the call,
    expiring 3600 or 7200 seconds after the write. *)
Definition written_by (call : world * operation) (k : string)
    (item : CacheItem) : Prop :=
  match call with
  | (w, Personalized userId limit) =>
      k = MLService.rec_key userId limit
      ∧ expiry item = now_at_set w + 3600 * 1000
      ∧ ∃ ratings likes,
          axios_post w (recommendations_call userId limit ratings likes)
            = Returned (value item)
  | (w, Similar movieId limit) =>
      k = MLService.similar_key movieId limit
      ∧ expiry item = now_at_set w + 7200 * 1000
      ∧ axios_post w (similar_call movieId limit) = Returned (value item)
  | _ => False
  end.

(** Every payload the ranking service answers with is aligned. *)
Definition service_aligned (w : world) : Prop :=
  ∀ c r, axios_post w c = Returned r → aligned r.

(** ** The preference mutations of [routes/movies.js]

    The handlers behind [POST /:id/like], [DELETE /:id/like] and
    [POST /:id/rate]. The user id comes from the verified token; the movie
    id is the path parameter, a string, handed to SQLite as it is. What
    [dbAsync.run] settles with is given to the handler as [db]. The rating
    of the request body is a JSON number or is absent. *)

Module movies.

(** The statements run through [dbAsync.run], with their parameters. *)
Inductive statement :=
| InsertLike (user_id : Z) (movie_id : string)
| DeleteLike (user_id : Z) (movie_id : string)
| UpsertRating (user_id : Z) (movie_id : string) (rating : float).

(** The bodies the handlers answer with. *)
Inductive response :=
| Liked (message : string) (liked : bool)
| Rated (message : string) (rating : float)
| Status400 (error : string)
| Status500 (error : string).

(** [await dbAsync.run(sql, params)]; the resolved value is not used. *)
Definition dbAsync_run (db : statement → completion unit)
    (stmt : statement) : M unit :=
  await (db stmt).

Definition like (db : statement → completion unit) (userId : Z)
    (movieId : string) : M response :=
  try_catch
    (dbAsync_run db (InsertLike userId movieId) ;;;
     MLService.clearUserCache userId ;;;
     ret (Liked "Movie liked" true))
    (λ _, ret (Status500 "Database error")).

Definition unlike (db : statement → completion unit) (userId : Z)
    (movieId : string) : M response :=
  try_catch
    (dbAsync_run db (DeleteLike userId movieId) ;;;
     MLService.clearUserCache userId ;;;
     ret (Liked "Movie unliked" false))
    (λ _, ret (Status500 "Database error")).

(** [!rating || rating < 1 || rating > 5] for a number: 0, -0 and NaN are
    falsy. *)
Definition out_of_range (r : float) : bool :=
  (PrimFloat.is_zero r || PrimFloat.is_nan r)
  || (r <? 1)%float || (5 <? r)%float.

Definition rate (db : statement → completion unit) (userId : Z)
    (movieId : string) (rating : option float) : M response :=
  try_catch
    (match rating with
     | None => ret (Status400 "Rating must be between 1 and 5")
     | Some r =>
         if out_of_range r then
           ret (Status400 "Rating must be between 1 and 5")
         else
           dbAsync_run db (UpsertRating userId movieId r) ;;;
           MLService.clearUserCache userId ;;;
           ret (Rated "Movie rated successfully" r)
     end)
    (λ _, ret (Status500 "Database error")).

End movies.

(** ** Registration and login: [routes/auth.js]

    The fields of a request body are strings or are absent. [bcrypt] and
    [jsonwebtoken] are libraries: what their calls settle with is given to
    the handlers, [None] standing for a rejected promise or a thrown error.
    The secret and the lifetime of a token are fixed by the handlers
    ([process.env.JWT_SECRET], seven days) and are not modelled. *)

Module auth.

Record register_body := {
  username : option string;
  email : option string;
  password : option string;
  favorite_genre : option string
}.

Record login_body := {
  login_email : option string;
  login_password : option string
}.

(** [!field]: absent, or the empty string. *)
Definition missing (field : option string) : bool :=
  match field with
  | None | Some EmptyString => true
  | Some _ => false
  end.

(** The string of a field that is not missing. *)
Definition text (field : option string) : string := default "" field.

(** A row of the table [users]. *)
Record user_row := {
  row_id : Z;
  row_username : string;
  row_email : string;
  row_password : string;
  row_favorite_genre : string
}.

(** The payload signed into a token: [{ userId, username }]. *)
Record token_payload := { token_userId : Z; token_username : string }.

(** The [user] object of an answer; it has no password field. *)
Record public_user := {
  user_id : Z;
  user_username : string;
  user_email : string;
  user_favorite_genre : string
}.

Inductive body :=
| Failure (error : string)
| Success (message token : string) (user : public_user).

(** How a handler can end without answering. *)
Inductive crash :=
(** the [catch] block reads [err], which is not defined there: a
    ReferenceError *)
| ErrIsNotDefined
(** [bcrypt.compare] rejected or [jwt.sign] threw inside the callback of
    the database call, outside any [try] *)
| CallbackFailed.

Inductive answer :=
| Json (status : Z) (b : body)
| NoAnswer (c : crash).

Record world := {
  (** [await bcrypt.hash(password, rounds)] *)
  bcrypt_hash : string → Z → option string;
  (** [await bcrypt.compare(password, hash)] *)
  bcrypt_compare : string → string → option bool;
  (** [jwt.sign(payload, process.env.JWT_SECRET, { expiresIn: '7d' })] *)
  jwt_sign : token_payload → option string;
  (** [db.run('INSERT INTO users (username, email, password,
      favorite_genre) VALUES (?, ?, ?, ?)', params, callback)]: the error
      given to the callback, or [this.lastID] *)
  insert_user : string → string → string → string → completion Z;
  (** [db.get('SELECT * FROM users WHERE email = ?', [email], callback)]:
      the error, or the row if there is one *)
  select_user : string → completion (option user_row)
}.

(** [favorite_genre || 'Action'] *)
Definition genre_or_default (favorite_genre : option string) : string :=
  if missing favorite_genre then "Action" else text favorite_genre.

Definition register (w : world) (b : register_body) : answer :=
  if missing (username b) || missing (email b) || missing (password b) then
    Json 400 (Failure "All fields are required")
  else
    match bcrypt_hash w (text (password b)) 10 with
    | None => NoAnswer ErrIsNotDefined
    | Some hashedPassword =>
        match insert_user w (text (username b)) (text (email b))
                hashedPassword (genre_or_default (favorite_genre b)) with
        | Thrown err =>
            if includes (message err) "UNIQUE" then
              Json 400 (Failure "Username or email already exists")
            else Json 500 (Failure "Database error")
        | Returned lastID =>
            match jwt_sign w {| token_userId := lastID;
                                token_username := text (username b) |} with
            | None => NoAnswer CallbackFailed
            | Some token =>
                Json 201
                  (Success "User registered successfully" token
                     {| user_id := lastID;
                        user_username := text (username b);
                        user_email := text (email b);
                        user_favorite_genre :=
                          genre_or_default (favorite_genre b) |})
            end
        end
    end.

Definition login (w : world) (b : login_body) : answer :=
  if missing (login_email b) || missing (login_password b) then
    Json 400 (Failure "Email and password required")
  else
    match select_user w (text (login_email b)) with
    | Thrown _ => Json 500 (Failure "Database error")
    | Returned None => Json 401 (Failure "Invalid credentials")
    | Returned (Some user) =>
        match bcrypt_compare w (text (login_password b))
                (row_password user) with
        | None => NoAnswer CallbackFailed
        | Some false => Json 401 (Failure "Invalid credentials")
        | Some true =>
            match jwt_sign w {| token_userId := row_id user;
                                token_username := row_username user |} with
            | None => NoAnswer CallbackFailed
            | Some token =>
                Json 200
                  (Success "Login successful" token
                     {| user_id := row_id user;
                        user_username := row_username user;
                        user_email := row_email user;
                        user_favorite_genre := row_favorite_genre user |})
            end
        end
    end.

(** *** The table [users] of [db.js]

    [id INTEGER PRIMARY KEY AUTOINCREMENT], [username TEXT UNIQUE NOT NULL],
    [email TEXT UNIQUE NOT NULL], [password TEXT NOT NULL],
    [favorite_genre TEXT]: the rows, and the largest id ever given out. *)
Record users := { rows : list user_row; last_id : Z }.

Definition empty_users : users := {| rows := []; last_id := 0 |}.

Definition username_taken (t : users) (name : string) : bool :=
  bool_decide (name ∈ row_username <$> rows t).

Definition email_taken (t : users) (address : string) : bool :=
  bool_decide (address ∈ row_email <$> rows t).

(** The [INSERT] of [register] on the table: refused when the username or
    the email is taken, else a new row under the next id. *)
Definition insert (t : users) (name address hash genre : string)
    : completion Z * users :=
  if username_taken t name then
    (Thrown (SqliteError
       "SQLITE_CONSTRAINT: UNIQUE constraint failed: users.username"), t)
  else if email_taken t address then
    (Thrown (SqliteError
       "SQLITE_CONSTRAINT: UNIQUE constraint failed: users.email"), t)
  else
    (Returned (last_id t + 1),
     {| rows := rows t ++ [{| row_id := last_id t + 1;
                               row_username := name;
                               row_email := address;
                               row_password := hash;
                               row_favorite_genre := genre |}];
        last_id := last_id t + 1 |}).

(** The [SELECT] of [login] on the table. *)
Definition select (t : users) (address : string) : option user_row :=
  head (filter (λ row, row_email row = address) (rows t)).

(** The cryptographic calls, kept apart from the database. *)
Record crypto := {
  hash : string → Z → option string;
  compare : string → string → option bool;
  sign : token_payload → option string
}.

(** The world of a request served from the table [t]. As the handler makes
    one database call, the table after the request is that of its call. *)
Definition on_table (c : crypto) (t : users) : world :=
  {| bcrypt_hash := hash c;
     bcrypt_compare := compare c;
     jwt_sign := sign c;
     insert_user := λ name address pw genre, (insert t name address pw genre).1;
     select_user := λ address, Returned (select t address) |}.

(** The table after [register]: that of its [INSERT], if it got that
    far. *)
Definition after_register (c : crypto) (t : users) (b : register_body)
    : users :=
  if missing (username b) || missing (email b) || missing (password b) then t
  else
    match hash c (text (password b)) 10 with
    | None => t
    | Some hashedPassword =>
        (insert t (text (username b)) (text (email b)) hashedPassword
           (genre_or_default (favorite_genre b))).2
    end.

End auth.

(** Stand-ins for the cryptographic libraries, to run the handlers on. *)
Definition toy_crypto : auth.crypto :=
  {| auth.hash := λ pw _, Some ("hash of " +:+ pw);
     auth.compare := λ pw h, Some (bool_decide (h = "hash of " +:+ pw));
     auth.sign := λ payload, Some ("token of " +:+ auth.token_username payload) |}.

Definition alice : auth.register_body :=
  {| auth.username := Some "alice"; auth.email := Some "alice@example.org";
     auth.password := Some "correct horse"; auth.favorite_genre := None |}.

(** * Properties *)

(** ** The expiring cache *)

Section cache_facts.

Context (key : string) (now : Z) (d : gmap string CacheItem).

Lemma get_absent :
  d !! key = None → cache.get key now d = (None, d).
Proof. intros Hk. unfold cache.get. by rewrite Hk. Qed.

Lemma get_live item :
  d !! key = Some item → now ≤ expiry item →
  cache.get key now d = (Some (value item), d).
Proof.
  intros Hk Hle. unfold cache.get. rewrite Hk.
  rewrite Z.gtb_ltb. by destruct (Z.ltb_spec (expiry item) now); [lia|].
Qed.

Lemma get_expired item :
  d !! key = Some item → expiry item < now →
  cache.get key now d = (None, delete key d).
Proof.
  intros Hk Hlt. unfold cache.get. rewrite Hk.
  rewrite Z.gtb_ltb. by destruct (Z.ltb_spec (expiry item) now); [|lia].
Qed.

(** A read never creates or rewrites an entry: it leaves the dictionary
    alone or drops the key it was asked for. *)
Lemma get_shrinks :
  (cache.get key now d).2 = d ∨ (cache.get key now d).2 = delete key d.
Proof.
  unfold cache.get. destruct (d !! key) as [item|]; [|by left].
  destruct (now >? expiry item); [by right | by left].
Qed.

End cache_facts.

(** C4. After [set(k, v, t)], a [get(k)] before [t] seconds have passed
    returns [v] and leaves the cache as it is; a [get(k)] after more than
    [t] seconds reports a miss and deletes the entry, and both its answer
    and the cache it leaves are those of a cache in which [k] was never
    set. *)
Theorem cache_set_get_within_and_after_ttl
    (k : string) (v : ScoringResult) (t set_time before after : Z)
    (d : gmap string CacheItem) :
  before < set_time + t * 1000 →
  set_time + t * 1000 < after →
  cache.get k before (cache.set k v t set_time d)
    = (Some v, cache.set k v t set_time d)
  ∧ cache.get k after (cache.set k v t set_time d) = (None, delete k d)
  ∧ cache.get k after (cache.set k v t set_time d)
    = cache.get k after (delete k d)
  ∧ (d !! k = None →
     cache.get k after (cache.set k v t set_time d) = cache.get k after d).
Proof.
  intros Hbefore Hafter.
  set (item := {| value := v; expiry := set_time + t * 1000 |}).
  assert (Hk : cache.set k v t set_time d !! k = Some item)
    by apply lookup_insert_eq.
  assert (Hexp : cache.get k after (cache.set k v t set_time d)
                 = (None, delete k d)).
  { rewrite (get_expired _ _ _ item Hk); [|simpl; lia].
    unfold cache.set. by rewrite delete_insert_eq. }
  repeat split.
  - rewrite (get_live _ _ _ item Hk); [done | simpl; lia].
  - exact Hexp.
  - rewrite Hexp, get_absent by apply lookup_delete_eq. done.
  - intros Hnone. rewrite Hexp, (get_absent _ _ d Hnone).
    by rewrite delete_id.
Qed.

Lemma cache_set_get_within_and_after_ttl_witness :
  cache.get "rec:user:7:5" 3599999 (cache.set "rec:user:7:5" sample_result 3600 0 ∅)
    = (Some sample_result, cache.set "rec:user:7:5" sample_result 3600 0 ∅)
  ∧ cache.get "rec:user:7:5" 3600001 (cache.set "rec:user:7:5" sample_result 3600 0 ∅)
    = (None, delete "rec:user:7:5" ∅)
  ∧ cache.get "rec:user:7:5" 3600001 (cache.set "rec:user:7:5" sample_result 3600 0 ∅)
    = cache.get "rec:user:7:5" 3600001 (delete "rec:user:7:5" ∅)
  ∧ ((∅ : gmap string CacheItem) !! "rec:user:7:5" = None →
     cache.get "rec:user:7:5" 3600001 (cache.set "rec:user:7:5" sample_result 3600 0 ∅)
     = cache.get "rec:user:7:5" 3600001 ∅).
Proof.
  apply (cache_set_get_within_and_after_ttl
           "rec:user:7:5" sample_result 3600 0 3599999 3600001 ∅); lia.
Defined.

(** C10. The expiry bound is exclusive: at the very millisecond
    [setTime + t * 1000] the entry is still served and kept, and a stored
    entry is reported missing (and deleted) exactly when the clock is
    strictly past its expiry. *)
Theorem cache_expiry_bound_is_exclusive
    (k : string) (v : ScoringResult) (t set_time now : Z)
    (d : gmap string CacheItem) :
  cache.get k (set_time + t * 1000) (cache.set k v t set_time d)
    = (Some v, cache.set k v t set_time d)
  ∧ ((cache.get k now (cache.set k v t set_time d)).1 = None
       ↔ set_time + t * 1000 < now)
  ∧ (∀ item, d !! k = Some item →
       cache.get k now d =
         if decide (expiry item < now) then (None, delete k d)
         else (Some (value item), d)).
Proof.
  set (item := {| value := v; expiry := set_time + t * 1000 |}).
  assert (Hk : cache.set k v t set_time d !! k = Some item)
    by apply lookup_insert_eq.
  split; [|split].
  - by rewrite (get_live _ _ _ item Hk); [|simpl; lia].
  - destruct (Z.lt_ge_cases (set_time + t * 1000) now) as [Hlt|Hge].
    + rewrite (get_expired _ _ _ item Hk) by (simpl; lia). done.
    + rewrite (get_live _ _ _ item Hk) by (simpl; lia). simpl.
      split; [done | lia].
  - intros it Hit. case_decide.
    + by apply (get_expired _ _ _ it).
    + apply (get_live _ _ _ it); [done | lia].
Qed.

(** ** Substring search *)

Lemma prefix_spec (sub s : string) :
  String.prefix sub s = true ↔ ∃ rest, s = sub +:+ rest.
Proof.
  revert s. induction sub as [|a sub IH]; intros s.
  - split; [intros _; by exists s | by destruct s].
  - destruct s as [|b s]; simpl.
    + split; [done | intros [rest Hrest]; discriminate].
    + destruct (Ascii.ascii_dec a b) as [->|Hne].
      * rewrite IH. split.
        -- intros [rest ->]. by exists rest.
        -- intros [rest Hrest]. simpl in Hrest. injection Hrest as ->.
           by exists rest.
      * split; [done | intros [rest Hrest]].
        simpl in Hrest. by injection Hrest as Hab _.
Qed.

(** [includes] is the substring relation. *)
Lemma includes_spec (s sub : string) :
  includes s sub = true ↔ ∃ before rest, s = before +:+ sub +:+ rest.
Proof.
  induction s as [|c s IH]; cbn [includes].
  - rewrite orb_false_r, prefix_spec. split.
    + intros [rest ->]. by exists "", rest.
    + intros (before & rest & Heq). exists rest.
      destruct before; [done | discriminate].
  - rewrite orb_true_iff, IH.
    rewrite prefix_spec. split.
    + intros [[rest ->] | (before & rest & ->)].
      * by exists "", rest.
      * by exists (String c before), rest.
    + intros (before & rest & Heq). destruct before as [|c' before].
      * left. by exists rest.
      * right. simpl in Heq. injection Heq as -> ->. by exists before, rest.
Qed.

(** ** Invalidation *)

Lemma clear_keys_lookup (fragment : string) (keys : list string)
    (d : gmap string CacheItem) (k : string) :
  MLService.clear_keys fragment keys d !! k =
    if includes k fragment && bool_decide (k ∈ keys) then None else d !! k.
Proof.
  revert d. induction keys as [|key keys IH]; intros d.
  - simpl. by rewrite andb_false_r.
  - unfold MLService.clear_keys in *. simpl. rewrite IH.
    destruct (includes k fragment) eqn:Hk; simpl.
    + destruct (decide (k = key)) as [->|Hne].
      * rewrite Hk, lookup_delete_eq.
        rewrite (bool_decide_eq_true_2 (key ∈ key :: keys)) by left.
        by destruct (bool_decide (key ∈ keys)).
      * assert (Htail : bool_decide (k ∈ key :: keys) = bool_decide (k ∈ keys)).
        { apply bool_decide_ext. rewrite elem_of_cons. tauto. }
        rewrite Htail.
        destruct (bool_decide (k ∈ keys)); [done|].
        destruct (includes key fragment); [|done].
        by rewrite lookup_delete_ne.
    + destruct (includes key fragment) eqn:Hkey; [|done].
      rewrite lookup_delete_ne; [done|]. intros ->. congruence.
Qed.

(** What [clearUserCache] does, key by key: an entry is gone exactly when
    its key contains [user:<userId>], and every other entry is untouched. *)
Lemma clearUserCache_lookup (userId : Z) (s : state) (k : string) :
  data (MLService.clearUserCache userId s).2 !! k =
    if includes k (MLService.user_fragment userId) then None else data s !! k.
Proof.
  simpl. rewrite clear_keys_lookup.
  destruct (includes k (MLService.user_fragment userId)); [simpl|done].
  case_bool_decide as Hin; [done|].
  rewrite elem_of_elements, elem_of_dom in Hin.
  by apply eq_None_not_Some.
Qed.

Lemma clearUserCache_returns (userId : Z) (s : state) :
  (MLService.clearUserCache userId s).1 = Returned tt
  ∧ sent (MLService.clearUserCache userId s).2 = sent s.
Proof. done. Qed.

(** Invalidating a user none of whose keys is cached changes nothing. *)
Lemma clearUserCache_noop (userId : Z) (s : state) :
  (∀ k, includes k (MLService.user_fragment userId) = true → data s !! k = None) →
  (MLService.clearUserCache userId s).2 = s.
Proof.
  intros Hnone. destruct s as [d snt].
  assert (Hd : data (MLService.clearUserCache userId {| data := d; sent := snt |}).2 = d).
  { apply map_eq. intros k. rewrite clearUserCache_lookup. simpl.
    destruct (includes k _) eqn:Hk; [|done]. symmetry. by apply (Hnone k). }
  simpl in *. by rewrite Hd.
Qed.

(** C2. [clearUserCache(userId)] should leave the entries of every other
    user alone. It deletes by substring, and [user:42] is a substring of
    [rec:user:420:10]: invalidating user 42 also deletes the personalized
    entry of user 420 (and keeps the similarity entry, which names no
    user). *)
Theorem clearUserCache_42_deletes_entry_of_user_420 :
  data three_entries !! "rec:user:420:10"
    = Some {| value := sample_result; expiry := 3600000 |}
  ∧ MLService.rec_key 420 10 = "rec:user:420:10"
  ∧ includes "rec:user:420:10" (MLService.user_fragment 42) = true
  ∧ data (MLService.clearUserCache 42 three_entries).2 !! "rec:user:420:10"
    = None
  ∧ data (MLService.clearUserCache 42 three_entries).2 !! "rec:user:42:10"
    = None
  ∧ data (MLService.clearUserCache 42 three_entries).2 !! "similar:603:10"
    = Some {| value := sample_result; expiry := 7200000 |}.
Proof.
  split; [vm_compute; reflexivity|].
  split; [vm_compute; reflexivity|].
  split; [vm_compute; reflexivity|].
  rewrite !clearUserCache_lookup.
  repeat split; vm_compute; reflexivity.
Qed.

(** ** The scoring client, case by case *)

Lemma personalized_fallback_cases (limit : Z) (s : state) :
  personalized_fallback limit s =
    match Array_from_length limit fallback_score with
    | Returned scs =>
        (Returned {| movie_ids := slice0 popular_ids limit; scores := scs;
                     method := "fallback" |}, s)
    | Thrown e => (Thrown e, s)
    end.
Proof.
  unfold personalized_fallback, bind, await, ret.
  by destruct (Array_from_length limit fallback_score).
Qed.

Lemma getPersonalizedRecommendations_cases (w : world) (userId limit : Z)
    (s : state) :
  getPersonalizedRecommendations w userId limit s =
    match cache.get (rec_key userId limit) (now_at_get w) (data s) with
    | (Some hit, d) => (Returned hit, with_data s d)
    | (None, d) =>
        match select_ratings w userId with
        | Thrown _ => personalized_fallback limit (with_data s d)
        | Returned ratings =>
            match select_likes w userId with
            | Thrown _ => personalized_fallback limit (with_data s d)
            | Returned likes =>
                let c := recommendations_call userId limit ratings likes in
                match axios_post w c with
                | Thrown _ =>
                    personalized_fallback limit (with_sent (with_data s d) c)
                | Returned result =>
                    (Returned result,
                     with_data (with_sent s c)
                       (cache.set (rec_key userId limit) result 3600
                          (now_at_set w) d))
                end
            end
        end
    end.
Proof.
  unfold getPersonalizedRecommendations, try_catch, bind, cache_get, await,
    post, cache_set, ret.
  destruct (cache.get _ _ _) as [[hit|] d]; [done|].
  destruct (select_ratings w userId) as [ratings|e1]; [|done].
  destruct (select_likes w userId) as [likes|e2]; [|done].
  simpl. fold (recommendations_call userId limit ratings likes).
  by destruct (axios_post w _).
Qed.

Lemma getSimilarMovies_cases (w : world) (movieId limit : Z) (s : state) :
  getSimilarMovies w movieId limit s =
    match cache.get (similar_key movieId limit) (now_at_get w) (data s) with
    | (Some hit, d) => (Returned hit, with_data s d)
    | (None, d) =>
        let c := similar_call movieId limit in
        match axios_post w c with
        | Thrown _ =>
            (Returned (empty_result "fallback"), with_sent (with_data s d) c)
        | Returned result =>
            (Returned result,
             with_data (with_sent s c)
               (cache.set (similar_key movieId limit) result 7200
                  (now_at_set w) d))
        end
    end.
Proof.
  unfold getSimilarMovies, try_catch, bind, cache_get, post, cache_set, ret.
  destruct (cache.get _ _ _) as [[hit|] d]; [done|].
  simpl. fold (similar_call movieId limit).
  by destruct (axios_post w _).
Qed.

Lemma getCollaborativeRecommendations_cases (w : world) (userId limit : Z)
    (s : state) :
  getCollaborativeRecommendations w userId limit s =
    match select_ratings w userId with
    | Thrown _ => (Returned (empty_result "fallback"), s)
    | Returned [] => (Returned (empty_result "no_data"), s)
    | Returned ratings =>
        let c := collaborative_call userId limit ratings in
        match axios_post w c with
        | Thrown _ => (Returned (empty_result "fallback"), with_sent s c)
        | Returned result => (Returned result, with_sent s c)
        end
    end.
Proof.
  unfold getCollaborativeRecommendations, try_catch, bind, await, post, ret.
  destruct (select_ratings w userId) as [[|r ratings]|e]; [done| |done].
  simpl. fold (collaborative_call userId limit (r :: ratings)).
  by destruct (axios_post w _).
Qed.

Lemma checkHealth_cases (w : world) (s : state) :
  checkHealth w s =
    match axios_get w health_call with
    | Returned payload => (Returned payload, with_sent s health_call)
    | Thrown e =>
        (Returned [("status", "unhealthy"); ("error", message e)],
         with_sent s health_call)
    end.
Proof.
  unfold checkHealth, try_catch, get_health, ret. simpl.
  fold health_call. by destruct (axios_get w _).
Qed.

(** ** The personalized fallback *)

Lemma ToLength_small (n : Z) : 0 ≤ n ≤ 2 ^ 32 - 1 → ToLength n = n.
Proof.
  intros Hn. unfold ToLength. destruct (Z.leb_spec n 0); lia.
Qed.

Lemma Array_from_length_small {A} (n : Z) (f : Z → A) :
  n ≤ 2 ^ 32 - 1 →
  ∃ l, Array_from_length n f = Returned l ∧ length l = Z.to_nat n.
Proof.
  intros Hn. unfold Array_from_length.
  assert (Hlen : ToLength n = Z.max n 0 ∧ ToLength n ≤ 2 ^ 32 - 1).
  { unfold ToLength. destruct (Z.leb_spec n 0); lia. }
  destruct Hlen as [Heq Hle].
  destruct (Z.ltb_spec (2 ^ 32 - 1) (ToLength n)); [lia|].
  eexists. split; [done|].
  rewrite length_fmap, length_seqZ, Heq. lia.
Qed.

Lemma Array_from_length_large {A} (n : Z) (f : Z → A) :
  2 ^ 32 ≤ n →
  Array_from_length n f = Thrown (RangeError "Invalid array length").
Proof.
  intros Hn. unfold Array_from_length, ToLength.
  destruct (Z.leb_spec n 0); [lia|].
  by destruct (Z.ltb_spec (2 ^ 32 - 1) (Z.min n (2 ^ 53 - 1))); [|lia].
Qed.

Lemma slice0_length {A} (arr : list A) (n : Z) :
  0 ≤ n ≤ Z.of_nat (length arr) → length (slice0 arr n) = Z.to_nat n.
Proof.
  intros Hn. unfold slice0. destruct (Z.ltb_spec n 0); [lia|].
  rewrite length_take. lia.
Qed.

(** Within the ten popular ids the fallback is aligned: it has [limit]
    ids and [limit] scores. *)
Lemma personalized_fallback_aligned (limit : Z) (s : state) :
  0 ≤ limit ≤ 10 →
  ∃ r, personalized_fallback limit s = (Returned r, s)
       ∧ length (movie_ids r) = Z.to_nat limit
       ∧ length (scores r) = Z.to_nat limit
       ∧ method r = "fallback".
Proof.
  intros Hl. rewrite personalized_fallback_cases.
  destruct (Array_from_length_small limit fallback_score) as (scs & -> & Hscs);
    [lia|].
  eexists. split; [done|]. simpl. split; [|done].
  apply slice0_length. simpl. lia.
Qed.

(** For a limit below 2^32 the fallback returns. *)
Lemma personalized_fallback_returns (limit : Z) (s : state) :
  limit < 2 ^ 32 →
  ∃ r, personalized_fallback limit s = (Returned r, s) ∧ method r = "fallback".
Proof.
  intros Hl. rewrite personalized_fallback_cases.
  destruct (Array_from_length_small limit fallback_score) as (scs & -> & _);
    [lia|].
  by eexists.
Qed.

(** C1. Every result of the scoring client should have as many scores as
    ids. The personalized fallback does not for a limit above ten: the ids
    are cut from a list of ten, the scores are generated [limit] times.
    With the ranking service timing out, [?limit=11] yields ten ids and
    eleven scores. *)
Theorem personalized_fallback_misaligned_above_ten :
  ∃ r,
    (getPersonalizedRecommendations offline 7
       (routes.limit_of_query (Some 11)) initial).1 = Returned r
    ∧ method r = "fallback"
    ∧ length (movie_ids r) = 10%nat
    ∧ length (scores r) = 11%nat
    ∧ ¬ aligned r.
Proof.
  eexists. split; [vm_compute; reflexivity|].
  unfold aligned. simpl. repeat split; lia.
Qed.

(** C8. Every operation of the service should return, whatever its input.
    [getPersonalizedRecommendations] does not when the ranking service is
    out of reach and the limit is 2^32 or more: the [catch] block itself
    throws a RangeError while it builds the scores, and the handler answers
    500. *)
Theorem personalized_fallback_throws_at_two_to_32 :
  (getPersonalizedRecommendations offline 7
     (routes.limit_of_query (Some 4294967296)) initial).1
    = Thrown (RangeError "Invalid array length")
  ∧ (routes.personalized offline (λ _, Returned []) 7
       (routes.limit_of_query (Some 4294967296)) initial).1
    = routes.Status500 "Failed to get recommendations".
Proof. split; vm_compute; reflexivity. Qed.

(** ** Calls while the ranking service is out of reach *)

Lemma offline_is_down : service_down offline.
Proof. split; intros c; reflexivity. Qed.

Lemma cache_get_empty (key : string) (now : Z) :
  cache.get key now ∅ = (None, ∅).
Proof. apply get_absent, lookup_empty. Qed.

(** With the service down no call writes to an empty cache. *)
Lemma step_down_keeps_empty (w : world) (op : operation) (s : state) :
  service_down w → data s = ∅ → data (step s (w, op)) = ∅.
Proof.
  intros [Hpost Hget] Hempty. destruct op as [u l|m l|u l|u|]; simpl.
  - rewrite getPersonalizedRecommendations_cases, Hempty, cache_get_empty.
    destruct (select_ratings w u) as [ratings|?];
      [destruct (select_likes w u) as [likes|?]|];
      try post_fails Hpost;
      rewrite personalized_fallback_cases;
      by destruct (Array_from_length l fallback_score).
  - rewrite getSimilarMovies_cases, Hempty, cache_get_empty.
    by post_fails Hpost.
  - rewrite getCollaborativeRecommendations_cases.
    destruct (select_ratings w u) as [[|r ratings]|?]; [done| |done].
    by post_fails Hpost.
  - apply map_eq. intros k.
    change (data (clearUserCache u s).2 !! k = (∅ : gmap string CacheItem) !! k).
    rewrite clearUserCache_lookup, Hempty.
    by destruct (includes k (user_fragment u)).
  - rewrite checkHealth_cases. by destruct (axios_get w health_call).
Qed.

Lemma run_down_keeps_empty (calls : list (world * operation)) (s : state) :
  Forall (λ call, service_down call.1) calls →
  data s = ∅ → data (run calls s) = ∅.
Proof.
  revert s. induction calls as [|[w op] calls IH]; intros s Hdown Hempty.
  - done.
  - inversion Hdown as [|? ? Hw Hrest]; subst. simpl in Hw.
    change (run ((w, op) :: calls) s) with (run calls (step s (w, op))).
    apply IH; [done|]. by apply step_down_keeps_empty.
Qed.

(** C3. While every request to the ranking service fails, whatever calls
    came before and whatever the database holds or answers for the user,
    [getPersonalizedRecommendations(7, 5)] returns the first five popular
    ids with the scores 0.90, 0.85, 0.80, 0.75, 0.70, tagged [fallback]. *)
Theorem personalized_7_5_fallback_when_service_down
    (calls : list (world * operation)) (w : world) :
  Forall (λ call, service_down call.1) calls →
  service_down w →
  (getPersonalizedRecommendations w 7 5 (run calls initial)).1 =
    Returned {| movie_ids := [550; 278; 680; 155; 13];
                scores := [0.90; 0.85; 0.80; 0.75; 0.70]%float;
                method := "fallback" |}.
Proof.
  intros Hcalls [Hpost _].
  rewrite getPersonalizedRecommendations_cases.
  rewrite (run_down_keeps_empty calls initial Hcalls eq_refl), cache_get_empty.
  destruct (select_ratings w 7) as [ratings|?];
    [destruct (select_likes w 7) as [likes|?]|];
    try post_fails Hpost;
    rewrite personalized_fallback_cases; reflexivity.
Qed.

Lemma personalized_7_5_fallback_when_service_down_witness :
  (getPersonalizedRecommendations offline 7 5
     (run [(offline, Personalized 7 5); (offline, Similar 603 10);
           (offline, ClearUser 7)] initial)).1 =
    Returned {| movie_ids := [550; 278; 680; 155; 13];
                scores := [0.90; 0.85; 0.80; 0.75; 0.70]%float;
                method := "fallback" |}.
Proof.
  apply (personalized_7_5_fallback_when_service_down
           [(offline, Personalized 7 5); (offline, Similar 603 10);
            (offline, ClearUser 7)] offline).
  - repeat (apply Forall_cons; split; [exact offline_is_down|]).
    apply Forall_nil_2.
  - exact offline_is_down.
Defined.

(** ** What a call writes to the cache *)

(** After a miss the key is not in the cache, whether it was never there
    or has just been dropped. *)
Lemma get_miss_absent (key : string) (now : Z) (d : gmap string CacheItem) :
  (cache.get key now d).1 = None → (cache.get key now d).2 !! key = None.
Proof.
  unfold cache.get. destruct (d !! key) as [item|] eqn:Hk; [|done].
  destruct (now >? expiry item); [|done]. intros _. apply lookup_delete_eq.
Qed.

Lemma get_lookup_shrinks (key k : string) (now : Z)
    (d : gmap string CacheItem) :
  (cache.get key now d).2 !! k = d !! k ∨ (cache.get key now d).2 !! k = None.
Proof.
  destruct (get_shrinks key now d) as [-> | ->]; [by left|].
  destruct (decide (key = k)) as [->|Hne].
  - right. apply lookup_delete_eq.
  - left. by apply lookup_delete_ne.
Qed.

Lemma personalized_down_data (w : world) (userId limit : Z) (s : state) :
  (∀ c, is_thrown (axios_post w c) = true) →
  data (getPersonalizedRecommendations w userId limit s).2
    = (cache.get (rec_key userId limit) (now_at_get w) (data s)).2.
Proof.
  intros Hpost. rewrite getPersonalizedRecommendations_cases.
  destruct (cache.get _ _ _) as [[hit|] d]; [done|].
  destruct (select_ratings w userId) as [ratings|?];
    [destruct (select_likes w userId) as [likes|?]|];
    try post_fails Hpost;
    rewrite personalized_fallback_cases;
    by destruct (Array_from_length limit fallback_score).
Qed.

Lemma similar_down_data (w : world) (movieId limit : Z) (s : state) :
  (∀ c, is_thrown (axios_post w c) = true) →
  data (getSimilarMovies w movieId limit s).2
    = (cache.get (similar_key movieId limit) (now_at_get w) (data s)).2.
Proof.
  intros Hpost. rewrite getSimilarMovies_cases.
  destruct (cache.get _ _ _) as [[hit|] d]; [done|]. by post_fails Hpost.
Qed.

Lemma collaborative_data (w : world) (userId limit : Z) (s : state) :
  data (getCollaborativeRecommendations w userId limit s).2 = data s.
Proof.
  rewrite getCollaborativeRecommendations_cases.
  destruct (select_ratings w userId) as [[|r ratings]|?]; [done| |done].
  cbv zeta. by destruct (axios_post w _).
Qed.

(** A call that finds its key absent asks the ranking service. *)
Lemma personalized_absent_posts (w : world) (userId limit : Z) (s : state)
    (ratings : list rating_row) (likes : list like_row) :
  data s !! rec_key userId limit = None →
  select_ratings w userId = Returned ratings →
  select_likes w userId = Returned likes →
  sent (getPersonalizedRecommendations w userId limit s).2
    = sent s ++ [recommendations_call userId limit ratings likes].
Proof.
  intros Hk Hr Hl. rewrite getPersonalizedRecommendations_cases.
  rewrite (get_absent _ _ _ Hk), Hr, Hl. cbv zeta.
  destruct (axios_post w _); [done|].
  rewrite personalized_fallback_cases.
  by destruct (Array_from_length limit fallback_score).
Qed.

Lemma similar_absent_posts (w : world) (movieId limit : Z) (s : state) :
  data s !! similar_key movieId limit = None →
  sent (getSimilarMovies w movieId limit s).2
    = sent s ++ [similar_call movieId limit].
Proof.
  intros Hk. rewrite getSimilarMovies_cases.
  rewrite (get_absent _ _ _ Hk). cbv zeta. by destruct (axios_post w _).
Qed.

(** A call writes to the cache only what the ranking service answered. *)
Lemma personalized_writes_only_responses (w : world) (userId limit : Z)
    (s : state) :
  let out := getPersonalizedRecommendations w userId limit s in
  let d := (cache.get (rec_key userId limit) (now_at_get w) (data s)).2 in
  data out.2 = d
  ∨ ∃ ratings likes result,
      axios_post w (recommendations_call userId limit ratings likes)
        = Returned result
      ∧ out.1 = Returned result
      ∧ data out.2
        = cache.set (rec_key userId limit) result 3600 (now_at_set w) d.
Proof.
  cbv zeta. rewrite getPersonalizedRecommendations_cases.
  destruct (cache.get _ _ _) as [[hit|] d]; [by left|].
  destruct (select_ratings w userId) as [ratings|?];
    [destruct (select_likes w userId) as [likes|?]|];
    [cbv zeta;
     destruct (axios_post w (recommendations_call userId limit ratings likes))
       as [result|?] eqn:Hpost;
     [right; by exists ratings, likes, result|] |..];
    left; rewrite personalized_fallback_cases;
    by destruct (Array_from_length limit fallback_score).
Qed.

Lemma similar_writes_only_responses (w : world) (movieId limit : Z)
    (s : state) :
  let out := getSimilarMovies w movieId limit s in
  let d := (cache.get (similar_key movieId limit) (now_at_get w) (data s)).2 in
  data out.2 = d
  ∨ ∃ result,
      axios_post w (similar_call movieId limit) = Returned result
      ∧ out.1 = Returned result
      ∧ data out.2
        = cache.set (similar_key movieId limit) result 7200 (now_at_set w) d.
Proof.
  cbv zeta. rewrite getSimilarMovies_cases.
  destruct (cache.get _ _ _) as [[hit|] d]; [by left|].
  cbv zeta.
  destruct (axios_post w (similar_call movieId limit)) as [result|?] eqn:Hpost;
    [right; by exists result | by left].
Qed.

(** C7. When the ranking call of [getPersonalizedRecommendations] or
    [getSimilarMovies] fails, the call creates or updates no cache entry;
    the key it asked for is absent afterwards, so the next call with the
    same arguments is not served from the cache and sends its request to
    the ranking service (for the personalized call, once its two reads of
    the database have succeeded, as on any miss). Only a response of the
    service is ever stored: it goes under the call's key, for 3600 seconds
    (personalized) or 7200 seconds (similarity) from the time of the write.
    [getCollaborativeRecommendations] never changes the cache. *)
Theorem only_service_responses_are_cached
    (w : world) (id limit : Z) (s : state) :
  let p := getPersonalizedRecommendations w id limit s in
  let m := getSimilarMovies w id limit s in
  let c := getCollaborativeRecommendations w id limit s in
  let p_miss :=
    (cache.get (rec_key id limit) (now_at_get w) (data s)).1 = None in
  let m_miss :=
    (cache.get (similar_key id limit) (now_at_get w) (data s)).1 = None in
  ((∀ call, is_thrown (axios_post w call) = true) →
     (∀ k, data p.2 !! k = data s !! k ∨ data p.2 !! k = None)
     ∧ (∀ k, data m.2 !! k = data s !! k ∨ data m.2 !! k = None)
     ∧ (p_miss →
        data p.2 !! rec_key id limit = None
        ∧ ∀ w' ratings likes,
            select_ratings w' id = Returned ratings →
            select_likes w' id = Returned likes →
            sent (getPersonalizedRecommendations w' id limit p.2).2
              = sent p.2 ++ [recommendations_call id limit ratings likes])
     ∧ (m_miss →
        data m.2 !! similar_key id limit = None
        ∧ ∀ w',
            sent (getSimilarMovies w' id limit m.2).2
              = sent m.2 ++ [similar_call id limit]))
  ∧ (∀ ratings likes result,
       p_miss →
       select_ratings w id = Returned ratings →
       select_likes w id = Returned likes →
       axios_post w (recommendations_call id limit ratings likes)
         = Returned result →
       p.1 = Returned result
       ∧ data p.2 !! rec_key id limit
         = Some {| value := result; expiry := now_at_set w + 3600 * 1000 |})
  ∧ (∀ result,
       m_miss →
       axios_post w (similar_call id limit) = Returned result →
       m.1 = Returned result
       ∧ data m.2 !! similar_key id limit
         = Some {| value := result; expiry := now_at_set w + 7200 * 1000 |})
  ∧ (data p.2 = (cache.get (rec_key id limit) (now_at_get w) (data s)).2
     ∨ ∃ ratings likes result,
         axios_post w (recommendations_call id limit ratings likes)
           = Returned result
         ∧ p.1 = Returned result
         ∧ data p.2
           = cache.set (rec_key id limit) result 3600 (now_at_set w)
               (cache.get (rec_key id limit) (now_at_get w) (data s)).2)
  ∧ (data m.2 = (cache.get (similar_key id limit) (now_at_get w) (data s)).2
     ∨ ∃ result,
         axios_post w (similar_call id limit) = Returned result
         ∧ m.1 = Returned result
         ∧ data m.2
           = cache.set (similar_key id limit) result 7200 (now_at_set w)
               (cache.get (similar_key id limit) (now_at_get w) (data s)).2)
  ∧ data c.2 = data s.
Proof.
  intros p m c p_miss m_miss. subst p m c p_miss m_miss.
  split; [|split; [|split; [|split; [|split]]]].
  - intros Hpost.
    rewrite (personalized_down_data w id limit s Hpost).
    rewrite (similar_down_data w id limit s Hpost).
    split; [intros k; apply get_lookup_shrinks|].
    split; [intros k; apply get_lookup_shrinks|].
    split.
    + intros Hmiss. pose proof (get_miss_absent _ _ _ Hmiss) as Habs.
      split; [done|]. intros w' ratings likes Hr Hl.
      apply personalized_absent_posts; [|done..].
      by rewrite (personalized_down_data w id limit s Hpost).
    + intros Hmiss. pose proof (get_miss_absent _ _ _ Hmiss) as Habs.
      split; [done|]. intros w'.
      apply similar_absent_posts.
      by rewrite (similar_down_data w id limit s Hpost).
  - intros ratings likes result Hmiss Hr Hl Hpost.
    rewrite getPersonalizedRecommendations_cases.
    destruct (cache.get _ _ _) as [[hit|] d]; [done|].
    rewrite Hr, Hl. cbv zeta. rewrite Hpost. simpl.
    split; [done|]. apply lookup_insert_eq.
  - intros result Hmiss Hpost.
    rewrite getSimilarMovies_cases.
    destruct (cache.get _ _ _) as [[hit|] d]; [done|].
    cbv zeta. rewrite Hpost. simpl.
    split; [done|]. apply lookup_insert_eq.
  - apply personalized_writes_only_responses.
  - apply similar_writes_only_responses.
  - apply collaborative_data.
Qed.

Lemma only_service_responses_are_cached_witness :
  data (getPersonalizedRecommendations offline 7 5 initial).2 !! rec_key 7 5
    = None
  ∧ sent (getSimilarMovies online 603 10
            (getSimilarMovies offline 603 10 initial).2).2
    = [similar_call 603 10; similar_call 603 10]
  ∧ data (getPersonalizedRecommendations online 7 5 initial).2 !! rec_key 7 5
    = Some {| value := sample_result; expiry := 1200 + 3600 * 1000 |}
  ∧ data (getSimilarMovies online 603 10 initial).2 !! similar_key 603 10
    = Some {| value := sample_result; expiry := 1200 + 7200 * 1000 |}.
Proof.
  destruct (only_service_responses_are_cached offline 7 5 initial)
    as [Hdown7 _].
  destruct (only_service_responses_are_cached offline 603 10 initial)
    as [Hdown603 _].
  destruct (only_service_responses_are_cached online 7 5 initial)
    as (_ & Hup7 & _).
  destruct (only_service_responses_are_cached online 603 10 initial)
    as (_ & _ & Hup603 & _).
  split; [|split; [|split]].
  - apply (Hdown7 (proj1 offline_is_down)). reflexivity.
  - destruct (Hdown603 (proj1 offline_is_down)) as (_ & _ & _ & Hretry).
    destruct (Hretry eq_refl) as [_ Hsent]. rewrite Hsent. reflexivity.
  - apply (Hup7 sample_ratings sample_likes sample_result); reflexivity.
  - apply (Hup603 sample_result); reflexivity.
Defined.

(** ** The collaborative path *)

(** C6, as the claim states it, fails on a rejected read of the ratings:
    the result is tagged [fallback] although no request was sent to the
    ranking service, no rating was read, and the service would have
    answered. *)
Lemma collaborative_fallback_on_database_error :
  getCollaborativeRecommendations database_down 7 10 initial
    = (Returned (empty_result "fallback"), initial)
  ∧ sent (getCollaborativeRecommendations database_down 7 10 initial).2 = []
  ∧ (¬ ∃ r rs, select_ratings database_down 7 = Returned (r :: rs))
  ∧ (∀ call, is_thrown (axios_post database_down call) = false).
Proof.
  split; [reflexivity|]. split; [reflexivity|]. split; [|done].
  intros (r & rs & Hread). discriminate Hread.
Qed.

(** C6, amended. A user whose ratings read back empty gets the empty result
    tagged [no_data], and no request is sent. The empty result tagged
    [fallback] is what the call makes up in two cases: the read of the
    ratings is rejected (no request is sent either), or there are ratings
    and the one request to the ranking service fails. A payload of the
    service is returned as it is. *)
Theorem collaborative_no_data_and_fallback
    (w : world) (userId limit : Z) (s : state) :
  let out := getCollaborativeRecommendations w userId limit s in
  (select_ratings w userId = Returned [] →
     out = (Returned (empty_result "no_data"), s))
  ∧ (∀ e, select_ratings w userId = Thrown e →
     out = (Returned (empty_result "fallback"), s))
  ∧ (∀ r rs e,
       select_ratings w userId = Returned (r :: rs) →
       axios_post w (collaborative_call userId limit (r :: rs)) = Thrown e →
       out = (Returned (empty_result "fallback"),
              with_sent s (collaborative_call userId limit (r :: rs))))
  ∧ (∀ r rs result,
       select_ratings w userId = Returned (r :: rs) →
       axios_post w (collaborative_call userId limit (r :: rs))
         = Returned result →
       out = (Returned result,
              with_sent s (collaborative_call userId limit (r :: rs))))
  ∧ (sent out.2 = sent s →
     (select_ratings w userId = Returned [] ∧
      out.1 = Returned (empty_result "no_data"))
     ∨ ((∃ e, select_ratings w userId = Thrown e) ∧
        out.1 = Returned (empty_result "fallback"))).
Proof.
  intros out. subst out. rewrite getCollaborativeRecommendations_cases.
  split; [by intros ->|]. split; [by intros e ->|].
  split; [intros r rs e -> Hpost; cbv zeta; by rewrite Hpost|].
  split; [intros r rs result -> Hpost; cbv zeta; by rewrite Hpost|].
  destruct (select_ratings w userId) as [[|r rs]|e].
  - intros _. by left.
  - cbv zeta. destruct (axios_post w _); simpl; intros Hsent;
      apply (f_equal length) in Hsent; rewrite length_app in Hsent;
      simpl in Hsent; lia.
  - intros _. right. split; [by exists e | done].
Qed.

Lemma collaborative_no_data_and_fallback_witness :
  getCollaborativeRecommendations
    {| now_at_get := 0; now_at_set := 0;
       select_ratings := λ _, Returned [];
       select_likes := λ _, Returned [];
       axios_post := λ _, Returned sample_result;
       axios_get := λ _, Returned [] |} 7 10 initial
    = (Returned (empty_result "no_data"), initial)
  ∧ getCollaborativeRecommendations database_down 7 10 initial
    = (Returned (empty_result "fallback"), initial)
  ∧ getCollaborativeRecommendations offline 7 10 initial
    = (Returned (empty_result "fallback"),
       with_sent initial (collaborative_call 7 10 sample_ratings)).
Proof.
  split; [|split].
  - apply (collaborative_no_data_and_fallback
             {| now_at_get := 0; now_at_set := 0;
                select_ratings := λ _, Returned [];
                select_likes := λ _, Returned [];
                axios_post := λ _, Returned sample_result;
                axios_get := λ _, Returned [] |} 7 10 initial).
    reflexivity.
  - apply (collaborative_no_data_and_fallback database_down 7 10 initial)
      with (e := SqliteError "SQLITE_BUSY: database is locked").
    reflexivity.
  - apply (collaborative_no_data_and_fallback offline 7 10 initial)
      with (e := AxiosError "timeout of 10000ms exceeded"); reflexivity.
Defined.

(** ** The enrichment aggregator *)

Lemma omap_after_fmap {A B C} (f : B → option C) (h : A → B) (l : list A) :
  omap f (h <$> l) = omap (f ∘ h) l.
Proof.
  induction l as [|x l IH]; [done|]. csimpl. by rewrite IH.
Qed.

Lemma omap_pointwise {A B} (f g : A → option B) (l : list A) :
  (∀ x, f x = g x) → omap f l = omap g l.
Proof.
  intros Hfg. induction l as [|x l IH]; [done|]. csimpl.
  by rewrite Hfg, IH.
Qed.

(** [arr.map(callback).filter(Boolean)] visits the indices in order. *)
Lemma omap_id_imap {A B} (g : nat → A → option B) (l : list A) :
  omap id (imap g l) = omap (λ i, x ← l !! i; g i x) (seq 0 (length l)).
Proof.
  revert g. induction l as [|x l IH]; intros g; [done|].
  rewrite imap_cons. simpl length. simpl seq.
  rewrite <- fmap_S_seq. csimpl. rewrite omap_after_fmap, (IH (g ∘ S)).
  done.
Qed.

Lemma fmap_omap_id_imap {A B C} (g : nat → A → option B) (h : B → C)
    (ok : A → option C) (l : list A) :
  (∀ i x, h <$> g i x = ok x) →
  h <$> omap id (imap g l) = omap ok l.
Proof.
  revert g. induction l as [|x l IH]; intros g Hg; [done|].
  rewrite imap_cons. csimpl. rewrite <- (Hg 0%nat x).
  destruct (g 0%nat x) as [b|]; csimpl.
  - f_equal. apply IH. intros i y. apply Hg.
  - apply IH. intros i y. apply Hg.
Qed.

Section enrichment.

Context (fetch : Z → completion json_object) (field : string)
  (r : ScoringResult).

(** The survivors, rank by rank. *)
Lemma validMovies_by_rank :
  routes.validMovies fetch field r
    = omap (survivor fetch field r) (seq 0 (length (movie_ids r))).
Proof.
  unfold routes.validMovies, routes.movieDetails. rewrite omap_id_imap.
  apply omap_pointwise. intros i. unfold survivor, routes.enrich_one.
  destruct (movie_ids r !! i) as [movieId|]; [simpl|done].
  by destruct (fetch movieId).
Qed.

(** Their details are those of the ids whose fetch succeeded, in the order
    of [movie_ids]. *)
Lemma validMovies_details :
  routes.details <$> routes.validMovies fetch field r
    = omap (λ movieId, fetched (fetch movieId)) (movie_ids r).
Proof.
  unfold routes.validMovies, routes.movieDetails.
  apply fmap_omap_id_imap. intros i movieId. unfold routes.enrich_one.
  by destruct (fetch movieId).
Qed.

Lemma validMovies_count :
  length (routes.validMovies fetch field r)
    = length (filter (λ movieId, is_Some (fetched (fetch movieId)))
                (movie_ids r)).
Proof.
  rewrite <- (length_fmap routes.details), validMovies_details.
  induction (movie_ids r) as [|movieId ids IH]; [done|].
  rewrite filter_cons. csimpl.
  destruct (fetch movieId) as [d|e]; csimpl; by rewrite IH.
Qed.

End enrichment.

(** C5. The aggregator returns an item for exactly the ids whose fetch
    succeeded, in the order of [movie_ids] whatever the scores are; each
    item carries the score found at the rank of its id, under the field name
    of the calling handler; and the handlers report the number of items
    returned. With ids 1, 2, 3, scores 0.9, 0.8, 0.7 and a fetch that fails
    for id 2 only, the items are those of ids 1 and 3, in that order, with
    scores 0.9 and 0.7. *)
Theorem enrichment_keeps_rank_and_score
    (fetch : Z → completion json_object) (field : string)
    (r : ScoringResult) :
  routes.validMovies fetch field r
    = omap (survivor fetch field r) (seq 0 (length (movie_ids r)))
  ∧ routes.details <$> routes.validMovies fetch field r
    = omap (λ movieId, fetched (fetch movieId)) (movie_ids r)
  ∧ (∀ w userId limit s,
       (getPersonalizedRecommendations w userId limit s).1 = Returned r →
       (routes.personalized w fetch userId limit s).1
         = routes.Recommendations
             (routes.validMovies fetch "recommendation_score" r) (method r)
             (length (routes.validMovies fetch "recommendation_score" r)))
  ∧ (∀ w movieId limit s,
       (getSimilarMovies w movieId limit s).1 = Returned r →
       (routes.similar w fetch movieId limit s).1
         = routes.SimilarMovies
             (routes.validMovies fetch "similarity_score" r)
             (length (routes.validMovies fetch "similarity_score" r)))
  ∧ (∀ w userId limit s,
       (getCollaborativeRecommendations w userId limit s).1 = Returned r →
       movie_ids r ≠ [] →
       (routes.collaborative w fetch userId limit s).1
         = routes.Recommendations
             (routes.validMovies fetch "predicted_rating" r)
             "collaborative_filtering"
             (length (routes.validMovies fetch "predicted_rating" r)))
  ∧ (∀ tag d1 d3 e,
       fetch 1 = Returned d1 → fetch 2 = Thrown e → fetch 3 = Returned d3 →
       routes.validMovies fetch field (ranked_1_2_3 tag)
         = [ {| routes.details := d1; routes.score_field := field;
                routes.score := Some 0.9%float |};
             {| routes.details := d3; routes.score_field := field;
                routes.score := Some 0.7%float |} ]).
Proof.
  split; [apply validMovies_by_rank|].
  split; [apply validMovies_details|].
  split; [|split; [|split]].
  - intros w userId limit s Hr. unfold routes.personalized.
    destruct (getPersonalizedRecommendations w userId limit s) as [out s'].
    simpl in Hr. by rewrite Hr.
  - intros w movieId limit s Hr. unfold routes.similar.
    destruct (getSimilarMovies w movieId limit s) as [out s'].
    simpl in Hr. by rewrite Hr.
  - intros w userId limit s Hr Hids. unfold routes.collaborative.
    destruct (getCollaborativeRecommendations w userId limit s) as [out s'].
    simpl in Hr. rewrite Hr. by destruct (movie_ids r).
  - intros tag d1 d3 e H1 H2 H3.
    unfold routes.validMovies, routes.movieDetails, routes.enrich_one.
    simpl. by rewrite H1, H2, H3.
Qed.

Lemma enrichment_keeps_rank_and_score_witness :
  routes.validMovies tmdb_without_2 "recommendation_score"
    (ranked_1_2_3 "hybrid")
  = [ {| routes.details := [("id", "1")];
         routes.score_field := "recommendation_score";
         routes.score := Some 0.9%float |};
      {| routes.details := [("id", "3")];
         routes.score_field := "recommendation_score";
         routes.score := Some 0.7%float |} ].
Proof.
  destruct (enrichment_keeps_rank_and_score tmdb_without_2
              "recommendation_score" (ranked_1_2_3 "hybrid"))
    as (_ & _ & _ & _ & _ & Hexample).
  apply (Hexample "hybrid" [("id", "1")] [("id", "3")]
           (AxiosError "Request failed with status code 404"));
    reflexivity.
Defined.

(** ** Which calls return *)

Lemma getSimilarMovies_returns (w : world) (movieId limit : Z) (s : state) :
  ∃ r, (getSimilarMovies w movieId limit s).1 = Returned r.
Proof.
  rewrite getSimilarMovies_cases.
  destruct (cache.get _ _ _) as [[hit|] d]; [by eexists|].
  cbv zeta. destruct (axios_post w _); by eexists.
Qed.

Lemma getCollaborativeRecommendations_returns (w : world) (userId limit : Z)
    (s : state) :
  ∃ r, (getCollaborativeRecommendations w userId limit s).1 = Returned r.
Proof.
  rewrite getCollaborativeRecommendations_cases.
  destruct (select_ratings w userId) as [[|r ratings]|?]; [by eexists| |by eexists].
  cbv zeta. destruct (axios_post w _); by eexists.
Qed.

Lemma checkHealth_returns (w : world) (s : state) :
  ∃ payload, (checkHealth w s).1 = Returned payload
    ∧ (∀ e, axios_get w health_call = Thrown e →
         payload = [("status", "unhealthy"); ("error", message e)]).
Proof.
  rewrite checkHealth_cases.
  destruct (axios_get w health_call) as [payload|e]; eexists; split; try done.
  by intros e' [= ->].
Qed.

(** Below 2^32 the personalized call returns as well. *)
Lemma getPersonalizedRecommendations_returns (w : world) (userId limit : Z)
    (s : state) :
  limit < 2 ^ 32 →
  ∃ r, (getPersonalizedRecommendations w userId limit s).1 = Returned r.
Proof.
  intros Hl. rewrite getPersonalizedRecommendations_cases.
  destruct (cache.get _ _ _) as [[hit|] d]; [by eexists|].
  destruct (select_ratings w userId) as [ratings|?];
    [destruct (select_likes w userId) as [likes|?]|];
    [cbv zeta; destruct (axios_post w _); [by eexists|] |..];
    match goal with
    | |- context [personalized_fallback limit ?st] =>
        destruct (personalized_fallback_returns limit st Hl) as (r & -> & _)
    end; by eexists.
Qed.

(** ** Reuse of a cached similarity result *)

(** Two calls of [getSimilarMovies] with the same arguments, the second
    before the entry written by the first expires, send one request when
    the first one is answered. *)
Lemma getSimilarMovies_reuses_cache (w1 w2 : world) (movieId limit : Z)
    (s : state) (result : ScoringResult) :
  data s !! similar_key movieId limit = None →
  axios_post w1 (similar_call movieId limit) = Returned result →
  now_at_get w2 ≤ now_at_set w1 + 7200 * 1000 →
  let first := getSimilarMovies w1 movieId limit s in
  let second := getSimilarMovies w2 movieId limit first.2 in
  second.1 = Returned result
  ∧ sent second.2 = sent s ++ [similar_call movieId limit].
Proof.
  intros Hk Hpost Hlive first second. subst first second.
  rewrite (getSimilarMovies_cases w1), (get_absent _ _ _ Hk).
  cbv zeta. rewrite Hpost. rewrite getSimilarMovies_cases. simpl.
  rewrite (get_live _ _ _ {| value := result;
             expiry := now_at_set w1 + 7200 * 1000 |});
    [done | apply lookup_insert_eq | done].
Qed.

(** ** Further properties of the service *)

(** X1. Invalidation by substring: [clearUserCache(userId)] returns, sends
    nothing, deletes exactly the keys in which [user:<userId>] occurs and
    leaves every other entry as it was. *)
Theorem clearUserCache_deletes_exactly_matching_keys
    (userId : Z) (s : state) (k : string) :
  (clearUserCache userId s).1 = Returned tt
  ∧ sent (clearUserCache userId s).2 = sent s
  ∧ data (clearUserCache userId s).2 !! k =
      (if includes k (user_fragment userId) then None else data s !! k)
  ∧ (includes k (user_fragment userId) = true
       ↔ ∃ before rest, k = before +:+ user_fragment userId +:+ rest).
Proof.
  split; [done|]. split; [done|].
  split; [apply clearUserCache_lookup | apply includes_spec].
Qed.

(** X2. Invalidating a user none of whose keys is cached is a no-op. *)
Theorem clearUserCache_without_entries_is_noop (userId : Z) (s : state) :
  (∀ k, includes k (user_fragment userId) = true → data s !! k = None) →
  clearUserCache userId s = (Returned tt, s).
Proof.
  intros Hnone. pose proof (clearUserCache_noop userId s Hnone) as Hs.
  destruct (clearUserCache userId s) as [out s'] eqn:Hcall.
  simpl in Hs. subst s'. f_equal.
  by apply (f_equal fst) in Hcall.
Qed.

Lemma clearUserCache_without_entries_is_noop_witness :
  clearUserCache 7 three_entries = (Returned tt, three_entries).
Proof.
  apply (clearUserCache_without_entries_is_noop 7 three_entries).
  intros k Hk. unfold three_entries, cache.set. simpl.
  destruct (decide (k = rec_key 420 10)) as [->|H420];
    [vm_compute in Hk; discriminate Hk|].
  destruct (decide (k = rec_key 42 10)) as [->|H42];
    [vm_compute in Hk; discriminate Hk|].
  destruct (decide (k = similar_key 603 10)) as [->|H603];
    [vm_compute in Hk; discriminate Hk|].
  rewrite !lookup_insert_ne by done. apply lookup_empty.
Defined.

(** X3. Cache reuse: of two calls of [getSimilarMovies] with the same
    arguments, the second made while the entry written by the first is
    live, only the first sends a request, and both return its answer. *)
Theorem getSimilarMovies_second_call_is_served_from_cache
    (w1 w2 : world) (movieId limit : Z) (s : state) (result : ScoringResult) :
  data s !! similar_key movieId limit = None →
  axios_post w1 (similar_call movieId limit) = Returned result →
  now_at_get w2 ≤ now_at_set w1 + 7200 * 1000 →
  (getSimilarMovies w1 movieId limit s).1 = Returned result
  ∧ (getSimilarMovies w2 movieId limit
       (getSimilarMovies w1 movieId limit s).2).1 = Returned result
  ∧ sent (getSimilarMovies w2 movieId limit
            (getSimilarMovies w1 movieId limit s).2).2
    = sent s ++ [similar_call movieId limit].
Proof.
  intros Hk Hpost Hlive.
  destruct (getSimilarMovies_reuses_cache w1 w2 movieId limit s result
              Hk Hpost Hlive) as [Hsecond Hsent].
  split; [|by split].
  rewrite getSimilarMovies_cases, (get_absent _ _ _ Hk). cbv zeta.
  by rewrite Hpost.
Qed.

Lemma getSimilarMovies_second_call_is_served_from_cache_witness :
  (getSimilarMovies online 42 10 initial).1 = Returned sample_result
  ∧ (getSimilarMovies offline 42 10
       (getSimilarMovies online 42 10 initial).2).1 = Returned sample_result
  ∧ sent (getSimilarMovies offline 42 10
            (getSimilarMovies online 42 10 initial).2).2
    = sent initial ++ [similar_call 42 10].
Proof.
  apply (getSimilarMovies_second_call_is_served_from_cache
           online offline 42 10 initial sample_result).
  - apply lookup_empty.
  - reflexivity.
  - simpl. lia.
Defined.

(** X4. The operations that always return, and the range of limits in which
    the personalized one does. *)
Theorem service_calls_return (w : world) (id limit : Z) (s : state) :
  (∃ r, (getSimilarMovies w id limit s).1 = Returned r)
  ∧ (∃ r, (getCollaborativeRecommendations w id limit s).1 = Returned r)
  ∧ (clearUserCache id s).1 = Returned tt
  ∧ (∃ payload, (checkHealth w s).1 = Returned payload
       ∧ ∀ e, axios_get w health_call = Thrown e →
           payload = [("status", "unhealthy"); ("error", message e)])
  ∧ (limit < 2 ^ 32 →
     ∃ r, (getPersonalizedRecommendations w id limit s).1 = Returned r)
  ∧ (2 ^ 32 ≤ limit →
     ∀ st, personalized_fallback limit st
           = (Thrown (RangeError "Invalid array length"), st)).
Proof.
  split; [apply getSimilarMovies_returns|].
  split; [apply getCollaborativeRecommendations_returns|].
  split; [done|].
  split; [apply checkHealth_returns|].
  split; [apply getPersonalizedRecommendations_returns|].
  intros Hl st. rewrite personalized_fallback_cases.
  by rewrite Array_from_length_large.
Qed.

(** X5. Every result the service makes up itself is aligned, the personalized
    fallback for a limit from 0 to 10: it then has [limit] ids and [limit]
    scores. *)
Theorem made_up_results_are_aligned (limit : Z) (s : state) :
  0 ≤ limit ≤ 10 →
  aligned (empty_result "fallback")
  ∧ aligned (empty_result "no_data")
  ∧ ∃ r, personalized_fallback limit s = (Returned r, s)
         ∧ aligned r
         ∧ length (movie_ids r) = Z.to_nat limit
         ∧ method r = "fallback".
Proof.
  intros Hl. split; [done|]. split; [done|].
  destruct (personalized_fallback_aligned limit s Hl)
    as (r & Hr & Hids & Hscores & Htag).
  exists r. unfold aligned. by rewrite Hids, Hscores.
Qed.

Lemma made_up_results_are_aligned_witness :
  aligned (empty_result "fallback")
  ∧ aligned (empty_result "no_data")
  ∧ ∃ r, personalized_fallback 5 initial = (Returned r, initial)
         ∧ aligned r
         ∧ length (movie_ids r) = Z.to_nat 5
         ∧ method r = "fallback".
Proof. apply (made_up_results_are_aligned 5 initial). lia. Defined.

(** ** Cache keys *)

Lemma all_chars_app (p : Ascii.ascii → bool) (s1 s2 : string) :
  all_chars p (s1 +:+ s2) = all_chars p s1 && all_chars p s2.
Proof.
  induction s1 as [|c s1 IH]; [done|]. simpl. by rewrite IH, andb_assoc.
Qed.

Lemma pretty_N_char_digit (x : N) : digit_or_dash (pretty_N_char x) = true.
Proof. unfold pretty_N_char. by repeat case_match. Qed.

Lemma pretty_N_go_chars (x : N) (s : string) :
  all_chars digit_or_dash s = true →
  all_chars digit_or_dash (pretty_N_go x s) = true.
Proof.
  revert s. induction (N.lt_wf_0 x) as [x _ IH]; intros s Hs.
  destruct (decide (x = 0)%N) as [->|Hx]; [by rewrite pretty_N_go_0|].
  rewrite pretty_N_go_step by lia. apply IH.
  - apply N.div_lt; lia.
  - simpl. by rewrite pretty_N_char_digit.
Qed.

(** A rendered number consists of digits and at most a sign. *)
Lemma pretty_Z_chars (z : Z) : all_chars digit_or_dash (pretty z) = true.
Proof.
  assert (HN : ∀ n : N, all_chars digit_or_dash (pretty n) = true).
  { intros n. unfold pretty, pretty_N. case_decide; [done|].
    by apply pretty_N_go_chars. }
  destruct z as [|p|p]; [done|apply (HN (N.pos p))|].
  change (pretty (Z.neg p)) with ("-" +:+ pretty (N.pos p)).
  rewrite all_chars_app. by rewrite HN.
Qed.

(** Two strings that agree up to a separator which occurs in neither head
    have the same heads and the same tails. *)
Lemma split_at_separator (sep : Ascii.ascii) (p : Ascii.ascii → bool)
    (a a' b b' : string) :
  p sep = false →
  all_chars p a = true → all_chars p a' = true →
  a +:+ String sep b = a' +:+ String sep b' →
  a = a' ∧ b = b'.
Proof.
  intros Hsep. revert a'. induction a as [|c a IH]; intros [|c' a'] Ha Ha' Heq;
    simpl in *.
  - by injection Heq as ->.
  - injection Heq as <- _. apply andb_true_iff in Ha' as [Hc _]. congruence.
  - injection Heq as -> _. apply andb_true_iff in Ha as [Hc _]. congruence.
  - injection Heq as -> Heq.
    apply andb_true_iff in Ha as [_ Ha]. apply andb_true_iff in Ha' as [_ Ha'].
    destruct (IH a' Ha Ha' Heq) as [-> ->]. done.
Qed.

Lemma app_inv_head_string (s t t' : string) : s +:+ t = s +:+ t' → t = t'.
Proof. induction s as [|c s IH]; simpl; [done|]. intros [= H]. auto. Qed.

Lemma numbers_split (x x' y y' : Z) :
  pretty x +:+ ":" +:+ pretty y = pretty x' +:+ ":" +:+ pretty y' →
  x = x' ∧ y = y'.
Proof.
  intros Heq.
  destruct (split_at_separator ":" digit_or_dash (pretty x) (pretty x')
              (pretty y) (pretty y')) as [Hx Hy];
    [done | apply pretty_Z_chars | apply pretty_Z_chars | exact Heq |].
  split; by apply (inj pretty).
Qed.

Lemma all_chars_weaken (p q : Ascii.ascii → bool) (s : string) :
  (∀ c, p c = true → q c = true) →
  all_chars p s = true → all_chars q s = true.
Proof.
  intros Hpq. induction s as [|c s IH]; [done|]. simpl.
  rewrite !andb_true_iff. intros [Hc Hs]. auto.
Qed.

Lemma digit_or_dash_other_than_u (c : Ascii.ascii) :
  digit_or_dash c = true → other_than "u" c = true.
Proof.
  unfold digit_or_dash. intros Hc. apply bool_decide_eq_true_1 in Hc.
  repeat (apply elem_of_cons in Hc as [->|Hc]; [done|]).
  by apply elem_of_nil in Hc.
Qed.

(** A string in which the first character of [sub] does not occur does not
    include [sub]. *)
Lemma includes_needs_first_char (x : Ascii.ascii) (sub s : string) :
  all_chars (other_than x) s = true → includes s (String x sub) = false.
Proof.
  induction s as [|c s IH]; [done|]. simpl.
  rewrite andb_true_iff. intros [Hc Hs]. rewrite (IH Hs), orb_false_r.
  destruct (Ascii.ascii_dec x c) as [->|Hne]; [|done].
  unfold other_than in Hc. by rewrite Ascii.eqb_refl in Hc.
Qed.

Lemma similar_key_has_no_u (movieId limit : Z) :
  all_chars (other_than "u") (similar_key movieId limit) = true.
Proof.
  unfold similar_key. rewrite !all_chars_app.
  rewrite !(all_chars_weaken digit_or_dash (other_than "u") _
              digit_or_dash_other_than_u (pretty_Z_chars _)).
  done.
Qed.

Lemma rec_key_includes_fragment (userId limit : Z) :
  includes (rec_key userId limit) (user_fragment userId) = true.
Proof.
  apply includes_spec. exists "rec:", (":" +:+ pretty limit).
  reflexivity.
Qed.

(** X6. The cache keys are collision-free: two personalized keys are equal
    only for the same user and limit, two similarity keys only for the same
    movie and limit, and a personalized key is never a similarity key. A
    cached result can therefore only be served to a call with the arguments
    of the call that stored it. *)
Theorem cache_keys_are_collision_free (id limit id' limit' : Z) :
  (rec_key id limit = rec_key id' limit' ↔ id = id' ∧ limit = limit')
  ∧ (similar_key id limit = similar_key id' limit'
       ↔ id = id' ∧ limit = limit')
  ∧ rec_key id limit ≠ similar_key id' limit'.
Proof.
  split; [|split].
  - split; [|by intros [-> ->]]. unfold rec_key. intros Heq.
    apply app_inv_head_string in Heq. by apply numbers_split.
  - split; [|by intros [-> ->]]. unfold similar_key. intros Heq.
    apply app_inv_head_string in Heq. by apply numbers_split.
  - unfold rec_key, similar_key. simpl. by intros [=].
Qed.

(** ** More on the cache *)

Lemma get_result_by_lookup (k : string) (now : Z)
    (d1 d2 : gmap string CacheItem) :
  d1 !! k = d2 !! k → (cache.get k now d1).1 = (cache.get k now d2).1.
Proof.
  intros Heq. unfold cache.get. rewrite Heq.
  destruct (d2 !! k) as [item|]; [|done]. by destruct (now >? expiry item).
Qed.

Lemma get_other_key (k k' : string) (now : Z) (d : gmap string CacheItem) :
  k ≠ k' → (cache.get k now d).2 !! k' = d !! k'.
Proof.
  intros Hne. destruct (get_shrinks k now d) as [-> | ->]; [done|].
  by apply lookup_delete_ne.
Qed.

(** X7. A second [set] of a key replaces the first altogether, value and
    expiry: the entry lives [t2] seconds from the second write, however long
    the first one had left. *)
Theorem cache_set_replaces_entry_and_expiry
    (k : string) (v1 v2 : ScoringResult) (t1 t2 first second now : Z)
    (d : gmap string CacheItem) :
  cache.set k v2 t2 second (cache.set k v1 t1 first d)
    = cache.set k v2 t2 second d
  ∧ (cache.get k now (cache.set k v2 t2 second (cache.set k v1 t1 first d))).1
    = (if decide (now ≤ second + t2 * 1000) then Some v2 else None).
Proof.
  assert (Hset : cache.set k v2 t2 second (cache.set k v1 t1 first d)
                 = cache.set k v2 t2 second d)
    by apply insert_insert_eq.
  split; [done|]. rewrite Hset.
  set (item := {| value := v2; expiry := second + t2 * 1000 |}).
  assert (Hk : cache.set k v2 t2 second d !! k = Some item)
    by apply lookup_insert_eq.
  case_decide.
  - by rewrite (get_live _ _ _ item Hk).
  - rewrite (get_expired _ _ _ item Hk); [done | simpl; lia].
Qed.

(** X8. Writing or reading one key leaves every other key alone: its entry
    stays as it is, also when it has expired (an expired entry is dropped
    only by a read of its own key), and a read of it answers as before. *)
Theorem cache_operations_leave_other_keys
    (k k' : string) (v : ScoringResult) (t now now' : Z)
    (d : gmap string CacheItem) :
  k ≠ k' →
  cache.set k v t now d !! k' = d !! k'
  ∧ (cache.get k now d).2 !! k' = d !! k'
  ∧ (cache.get k' now' (cache.set k v t now d)).1 = (cache.get k' now' d).1
  ∧ (cache.get k' now' (cache.get k now d).2).1 = (cache.get k' now' d).1.
Proof.
  intros Hne.
  assert (Hset : cache.set k v t now d !! k' = d !! k')
    by by apply lookup_insert_ne.
  pose proof (get_other_key k k' now d Hne) as Hget.
  repeat split; [done | done | by apply get_result_by_lookup..].
Qed.

Lemma cache_operations_leave_other_keys_witness :
  cache.set "rec:user:7:5" sample_result 3600 0 (data three_entries)
    !! "similar:603:10" = data three_entries !! "similar:603:10"
  ∧ (cache.get "rec:user:7:5" 0 (data three_entries)).2 !! "similar:603:10"
    = data three_entries !! "similar:603:10"
  ∧ (cache.get "similar:603:10" 9000000
       (cache.set "rec:user:7:5" sample_result 3600 0 (data three_entries))).1
    = (cache.get "similar:603:10" 9000000 (data three_entries)).1
  ∧ (cache.get "similar:603:10" 9000000
       (cache.get "rec:user:7:5" 0 (data three_entries)).2).1
    = (cache.get "similar:603:10" 9000000 (data three_entries)).1.
Proof.
  apply (cache_operations_leave_other_keys "rec:user:7:5" "similar:603:10"
           sample_result 3600 0 9000000 (data three_entries)).
  discriminate.
Defined.

(** ** More on the scoring client *)

(** X9. A live entry is returned as it is: the call reads no table, sends
    no request and leaves the cache alone, whatever the state of the ranking
    service and whatever the limit. *)
Theorem live_entry_is_served_without_any_call
    (w : world) (id limit : Z) (s : state) (item : CacheItem) :
  now_at_get w ≤ expiry item →
  (data s !! rec_key id limit = Some item →
     getPersonalizedRecommendations w id limit s = (Returned (value item), s))
  ∧ (data s !! similar_key id limit = Some item →
     getSimilarMovies w id limit s = (Returned (value item), s)).
Proof.
  intros Hlive. split; intros Hk.
  - rewrite getPersonalizedRecommendations_cases.
    rewrite (get_live _ _ _ item Hk Hlive). by destruct s.
  - rewrite getSimilarMovies_cases.
    rewrite (get_live _ _ _ item Hk Hlive). by destruct s.
Qed.

Lemma live_entry_is_served_without_any_call_witness :
  getPersonalizedRecommendations offline 42 10 three_entries
    = (Returned sample_result, three_entries).
Proof.
  destruct (live_entry_is_served_without_any_call offline 42 10 three_entries
              {| value := sample_result; expiry := 3600000 |}) as [Hp _].
  - simpl. lia.
  - apply Hp. vm_compute. reflexivity.
Defined.

(** X10. An expired entry is never served and does not survive the call
    that finds it: afterwards its key is absent, or holds what the ranking
    service has just answered, with a fresh expiry. *)
Theorem expired_entry_does_not_survive_a_call
    (w : world) (id limit : Z) (s : state) (item : CacheItem) :
  expiry item < now_at_get w →
  (data s !! rec_key id limit = Some item →
     let out := getPersonalizedRecommendations w id limit s in
     data out.2 !! rec_key id limit = None
     ∨ ∃ ratings likes result,
         axios_post w (recommendations_call id limit ratings likes)
           = Returned result
         ∧ out.1 = Returned result
         ∧ data out.2 !! rec_key id limit
           = Some {| value := result;
                     expiry := now_at_set w + 3600 * 1000 |})
  ∧ (data s !! similar_key id limit = Some item →
     let out := getSimilarMovies w id limit s in
     data out.2 !! similar_key id limit = None
     ∨ ∃ result,
         axios_post w (similar_call id limit) = Returned result
         ∧ out.1 = Returned result
         ∧ data out.2 !! similar_key id limit
           = Some {| value := result;
                     expiry := now_at_set w + 7200 * 1000 |}).
Proof.
  intros Hold. split; intros Hk out; subst out.
  - destruct (personalized_writes_only_responses w id limit s)
      as [Hd | (ratings & likes & result & Hpost & Hout & Hd)]; rewrite Hd.
    + left. rewrite (get_expired _ _ _ item Hk Hold). apply lookup_delete_eq.
    + right. exists ratings, likes, result.
      split; [done|]. split; [done|]. apply lookup_insert_eq.
  - destruct (similar_writes_only_responses w id limit s)
      as [Hd | (result & Hpost & Hout & Hd)]; rewrite Hd.
    + left. rewrite (get_expired _ _ _ item Hk Hold). apply lookup_delete_eq.
    + right. exists result.
      split; [done|]. split; [done|]. apply lookup_insert_eq.
Qed.

Lemma expired_entry_does_not_survive_a_call_witness :
  data (getPersonalizedRecommendations
          {| now_at_get := 3600001; now_at_set := 3600002;
             select_ratings := select_ratings offline;
             select_likes := select_likes offline;
             axios_post := axios_post offline;
             axios_get := axios_get offline |} 42 10 three_entries).2
    !! rec_key 42 10 = None.
Proof.
  destruct (expired_entry_does_not_survive_a_call
              {| now_at_get := 3600001; now_at_set := 3600002;
                 select_ratings := select_ratings offline;
                 select_likes := select_likes offline;
                 axios_post := axios_post offline;
                 axios_get := axios_get offline |} 42 10 three_entries
              {| value := sample_result; expiry := 3600000 |})
    as [Hp _]; [simpl; lia|].
  destruct (Hp eq_refl) as [Hgone | (ratings & likes & result & Hpost & _)].
  - exact Hgone.
  - discriminate Hpost.
Defined.

Lemma rec_key_gone_after_clear (userId limit : Z) (s : state) :
  data (clearUserCache userId s).2 !! rec_key userId limit = None.
Proof. by rewrite clearUserCache_lookup, rec_key_includes_fragment. Qed.

Lemma personalized_posts_after_clear (userId limit : Z) (s : state)
    (w : world) (ratings : list rating_row) (likes : list like_row) :
  select_ratings w userId = Returned ratings →
  select_likes w userId = Returned likes →
  sent (getPersonalizedRecommendations w userId limit
          (clearUserCache userId s).2).2
    = sent s ++ [recommendations_call userId limit ratings likes].
Proof.
  intros Hr Hl.
  by rewrite (personalized_absent_posts w userId limit _ ratings likes
                (rec_key_gone_after_clear userId limit s) Hr Hl).
Qed.

(** X11. Invalidation does its job for the user it is called for: after
    [clearUserCache(userId)] no personalized entry of that user is left,
    for any limit, so the next personalized call of the user reads the
    tables and asks the ranking service; and no similarity entry is ever
    removed by it. *)
Theorem clearUserCache_forces_fresh_recommendations
    (userId limit : Z) (s : state) :
  data (clearUserCache userId s).2 !! rec_key userId limit = None
  ∧ (∀ movieId l,
       data (clearUserCache userId s).2 !! similar_key movieId l
         = data s !! similar_key movieId l)
  ∧ (∀ w ratings likes,
       select_ratings w userId = Returned ratings →
       select_likes w userId = Returned likes →
       sent (getPersonalizedRecommendations w userId limit
               (clearUserCache userId s).2).2
         = sent s ++ [recommendations_call userId limit ratings likes]).
Proof.
  split; [apply rec_key_gone_after_clear|]. split.
  - intros movieId l. rewrite clearUserCache_lookup.
    change (user_fragment userId) with (String "u" ("ser:" +:+ pretty userId)).
    by rewrite (includes_needs_first_char "u" _ _
                  (similar_key_has_no_u movieId l)).
  - intros w ratings likes Hr Hl. by apply personalized_posts_after_clear.
Qed.

Lemma personalized_fallback_state (limit : Z) (s : state) :
  (personalized_fallback limit s).2 = s.
Proof.
  rewrite personalized_fallback_cases.
  by destruct (Array_from_length limit fallback_score).
Qed.

Lemma sent_unchanged (op : operation) (before after : list ml_call) :
  after = before →
  ∃ new, after = before ++ new ∧ (length new ≤ 1)%nat
         ∧ (∀ userId, op = ClearUser userId → new = []).
Proof. intros ->. exists []. rewrite app_nil_r. simpl. auto with lia. Qed.

Lemma sent_one_more (op : operation) (before after : list ml_call)
    (c : ml_call) :
  (∀ userId, op ≠ ClearUser userId) →
  after = before ++ [c] →
  ∃ new, after = before ++ new ∧ (length new ≤ 1)%nat
         ∧ (∀ userId, op = ClearUser userId → new = []).
Proof.
  intros Hop ->. exists [c]. split; [done|]. split; [simpl; lia|].
  intros userId Heq. by destruct (Hop userId).
Qed.

(** X12. No call retries: each call of the service sends at most one
    request to the ranking service, appended to those sent before, and
    [clearUserCache] sends none. *)
Theorem every_call_sends_at_most_one_request
    (w : world) (op : operation) (s : state) :
  ∃ new, sent (step s (w, op)) = sent s ++ new
         ∧ (length new ≤ 1)%nat
         ∧ (∀ userId, op = ClearUser userId → new = []).
Proof.
  destruct op as [u l|m l|u l|u|]; simpl.
  - rewrite getPersonalizedRecommendations_cases.
    destruct (cache.get _ _ _) as [[hit|] d]; [by apply sent_unchanged|].
    destruct (select_ratings w u) as [ratings|?];
      [destruct (select_likes w u) as [likes|?]|].
    + cbv zeta. destruct (axios_post w _);
        rewrite ?personalized_fallback_state;
        by eapply sent_one_more.
    + rewrite personalized_fallback_state. by apply sent_unchanged.
    + rewrite personalized_fallback_state. by apply sent_unchanged.
  - rewrite getSimilarMovies_cases.
    destruct (cache.get _ _ _) as [[hit|] d]; [by apply sent_unchanged|].
    cbv zeta. destruct (axios_post w _); by eapply sent_one_more.
  - rewrite getCollaborativeRecommendations_cases.
    destruct (select_ratings w u) as [[|r ratings]|?];
      [by apply sent_unchanged| |by apply sent_unchanged].
    cbv zeta. destruct (axios_post w _); by eapply sent_one_more.
  - by apply sent_unchanged.
  - rewrite checkHealth_cases.
    destruct (axios_get w health_call); by eapply sent_one_more.
Qed.

(** ** The fallback for every limit *)

Lemma Array_from_length_lookup {A} (n : Z) (f : Z → A) (l : list A) :
  Array_from_length n f = Returned l →
  length l = Z.to_nat n
  ∧ ∀ i, (i < Z.to_nat n)%nat → l !! i = Some (f (Z.of_nat i)).
Proof.
  unfold Array_from_length.
  destruct (Z.ltb_spec (2 ^ 32 - 1) (ToLength n)); [done|].
  intros [= <-].
  assert (Hlen : ToLength n = Z.max n 0).
  { unfold ToLength in *. destruct (Z.leb_spec n 0); lia. }
  split; [rewrite length_fmap, length_seqZ; lia|].
  intros i Hi. rewrite list_lookup_fmap, lookup_seqZ_lt by lia. done.
Qed.

(** X13. The personalized fallback, for every limit below 2^32: the ids
    are a prefix of the ten popular ids (for a negative limit, the list
    less its last [-limit] ids), there is one score [0.9 - i * 0.05] for
    each [i] below the limit, and ids and scores are aligned exactly when
    the limit is between 0 and 10, or is -10 or less (both lists empty). *)
Theorem personalized_fallback_for_every_limit (limit : Z) (s : state) :
  limit < 2 ^ 32 →
  ∃ r, personalized_fallback limit s = (Returned r, s)
    ∧ movie_ids r
      = take (Z.to_nat (if limit <? 0 then 10 + limit else limit)) popular_ids
    ∧ length (scores r) = Z.to_nat limit
    ∧ (∀ i, (i < Z.to_nat limit)%nat →
         scores r !! i = Some (fallback_score (Z.of_nat i)))
    ∧ (aligned r ↔ limit ≤ -10 ∨ 0 ≤ limit ≤ 10).
Proof.
  intros Hl. rewrite personalized_fallback_cases.
  destruct (Array_from_length_small limit fallback_score) as (scs & Hscs & _);
    [lia|].
  rewrite Hscs. destruct (Array_from_length_lookup _ _ _ Hscs) as [Hlen Hnth].
  eexists. split; [done|]. simpl.
  assert (Hids : slice0 popular_ids limit
            = take (Z.to_nat (if limit <? 0 then 10 + limit else limit))
                popular_ids).
  { unfold slice0. change (Z.of_nat (length popular_ids)) with 10.
    destruct (Z.ltb_spec limit 0).
    - f_equal. lia.
    - destruct (Z.le_gt_cases limit 10).
      + f_equal. lia.
      + rewrite !take_ge; [done | simpl; lia | simpl; lia]. }
  split; [done|]. split; [done|]. split; [done|].
  unfold aligned. simpl. rewrite Hids, Hlen, length_take.
  change (length popular_ids) with 10%nat.
  destruct (Z.ltb_spec limit 0); lia.
Qed.

Lemma personalized_fallback_for_every_limit_witness :
  ∃ r, personalized_fallback (-3) initial = (Returned r, initial)
    ∧ movie_ids r
      = take (Z.to_nat (if -3 <? 0 then 10 + -3 else -3)) popular_ids
    ∧ length (scores r) = Z.to_nat (-3)
    ∧ (∀ i, (i < Z.to_nat (-3))%nat →
         scores r !! i = Some (fallback_score (Z.of_nat i)))
    ∧ (aligned r ↔ -3 ≤ -10 ∨ 0 ≤ -3 ≤ 10).
Proof. apply (personalized_fallback_for_every_limit (-3) initial). lia. Defined.

(** ** More on the enrichment aggregator *)

(** X14. The aggregator never returns more items than there are ids; it
    returns one item per id when every fetch succeeds and none when every
    fetch fails; and when the result is aligned no item is left without a
    score. *)
Theorem enrichment_count_and_scores
    (fetch : Z → completion json_object) (field : string)
    (r : ScoringResult) :
  (length (routes.validMovies fetch field r) ≤ length (movie_ids r))%nat
  ∧ ((∀ movieId, movieId ∈ movie_ids r → is_returned (fetch movieId) = true) →
     length (routes.validMovies fetch field r) = length (movie_ids r))
  ∧ ((∀ movieId, movieId ∈ movie_ids r → is_thrown (fetch movieId) = true) →
     routes.validMovies fetch field r = [])
  ∧ (aligned r →
     Forall (λ item, is_Some (routes.score item))
       (routes.validMovies fetch field r)).
Proof.
  split; [rewrite validMovies_count; apply length_filter|].
  split; [|split].
  - intros Hall. rewrite validMovies_count.
    induction (movie_ids r) as [|movieId ids IH]; [done|].
    rewrite filter_cons. pose proof (Hall movieId) as Hm.
    destruct (fetch movieId) as [d|e]; [|discriminate Hm; left].
    rewrite decide_True by (by eexists). simpl. f_equal.
    apply IH. intros m Hin. apply Hall. by right.
  - intros Hnone. unfold routes.validMovies, routes.movieDetails.
    assert (Hgen : ∀ (ids : list Z) (g : nat → Z → option routes.EnrichedItem),
              (∀ i movieId, movieId ∈ ids → g i movieId = None) →
              omap id (imap g ids) = []).
    { induction ids as [|movieId ids IH]; intros g Hg; [done|].
      rewrite imap_cons. csimpl. rewrite (Hg 0%nat movieId) by left.
      apply IH. intros i m Hin. apply Hg. by right. }
    apply Hgen. intros i movieId Hin.
    unfold routes.enrich_one. pose proof (Hnone movieId Hin) as Hm.
    by destruct (fetch movieId).
  - intros Hal. rewrite validMovies_by_rank. apply Forall_forall.
    intros item Hitem. apply list_elem_of_omap in Hitem as (i & Hi & Hsurv).
    apply elem_of_seq in Hi. unfold survivor in Hsurv.
    destruct (movie_ids r !! i) as [movieId|]; [|done]. simpl in Hsurv.
    destruct (fetched (fetch movieId)) as [d|]; [|done]. simpl in Hsurv.
    injection Hsurv as <-. simpl. apply lookup_lt_is_Some.
    unfold aligned in Hal. lia.
Qed.

(** ** What the recommendation handlers answer *)

(** X15. The limit read from the query is never 0 (an absent, unreadable or
    zero parameter becomes 10). The similarity and collaborative handlers
    never answer 500, and the personalized handler does not for a limit
    below 2^32. The collaborative handler answers one and the same
    "not enough data" body when the user has no rating, when the read of the
    ratings is rejected and when the ranking service fails, so the caller
    cannot tell these apart. *)
Theorem recommendation_handlers_answers
    (w : world) (fetch : Z → completion json_object) (id limit : Z)
    (s : state) :
  (∀ parsed, routes.limit_of_query parsed ≠ 0)
  ∧ (∀ error, (routes.similar w fetch id limit s).1 ≠ routes.Status500 error)
  ∧ (∀ error,
       (routes.collaborative w fetch id limit s).1 ≠ routes.Status500 error)
  ∧ (limit < 2 ^ 32 →
     ∀ error,
       (routes.personalized w fetch id limit s).1 ≠ routes.Status500 error)
  ∧ (select_ratings w id = Returned []
     ∨ (∃ e, select_ratings w id = Thrown e)
     ∨ (∀ c, is_thrown (axios_post w c) = true) →
     (routes.collaborative w fetch id limit s).1
       = routes.NotEnoughData "Not enough data. Please rate more movies!" []).
Proof.
  split; [|split; [|split; [|split]]].
  - intros [n|]; [|done]. unfold routes.limit_of_query.
    destruct (Z.eqb_spec n 0); [done | lia].
  - intros error. unfold routes.similar.
    destruct (getSimilarMovies_returns w id limit s) as [r Hr].
    destruct (getSimilarMovies w id limit s) as [out s'].
    simpl in Hr. by rewrite Hr.
  - intros error. unfold routes.collaborative.
    destruct (getCollaborativeRecommendations_returns w id limit s) as [r Hr].
    destruct (getCollaborativeRecommendations w id limit s) as [out s'].
    simpl in Hr. rewrite Hr. by destruct (length (movie_ids r) =? 0)%nat.
  - intros Hl error. unfold routes.personalized.
    destruct (getPersonalizedRecommendations_returns w id limit s Hl)
      as [r Hr].
    destruct (getPersonalizedRecommendations w id limit s) as [out s'].
    simpl in Hr. by rewrite Hr.
  - intros Hcase. unfold routes.collaborative.
    rewrite getCollaborativeRecommendations_cases.
    destruct Hcase as [-> | [[e ->] | Hpost]]; [done..|].
    destruct (select_ratings w id) as [[|r ratings]|?]; [done| |done].
    by post_fails Hpost.
Qed.

Lemma recommendation_handlers_answers_witness :
  (routes.collaborative offline (λ _, Returned []) 7 10 initial).1
    = routes.NotEnoughData "Not enough data. Please rate more movies!" []
  ∧ (routes.collaborative database_down (λ _, Returned []) 7 10 initial).1
    = routes.NotEnoughData "Not enough data. Please rate more movies!" [].
Proof.
  split.
  - apply (recommendation_handlers_answers offline (λ _, Returned []) 7 10
             initial).
    right. right. apply offline_is_down.
  - apply (recommendation_handlers_answers database_down (λ _, Returned [])
             7 10 initial).
    right. left. by eexists.
Defined.

(** ** Preference changes and the cache *)

Lemma like_cases (db : movies.statement → completion unit) (userId : Z)
    (movieId : string) (s : state) :
  movies.like db userId movieId s =
    match db (movies.InsertLike userId movieId) with
    | Returned _ =>
        (Returned (movies.Liked "Movie liked" true),
         (clearUserCache userId s).2)
    | Thrown _ => (Returned (movies.Status500 "Database error"), s)
    end.
Proof.
  unfold movies.like, movies.dbAsync_run, try_catch, bind, await, ret.
  by destruct (db _).
Qed.

Lemma unlike_cases (db : movies.statement → completion unit) (userId : Z)
    (movieId : string) (s : state) :
  movies.unlike db userId movieId s =
    match db (movies.DeleteLike userId movieId) with
    | Returned _ =>
        (Returned (movies.Liked "Movie unliked" false),
         (clearUserCache userId s).2)
    | Thrown _ => (Returned (movies.Status500 "Database error"), s)
    end.
Proof.
  unfold movies.unlike, movies.dbAsync_run, try_catch, bind, await, ret.
  by destruct (db _).
Qed.

Lemma rate_cases (db : movies.statement → completion unit) (userId : Z)
    (movieId : string) (r : float) (s : state) :
  movies.out_of_range r = false →
  movies.rate db userId movieId (Some r) s =
    match db (movies.UpsertRating userId movieId r) with
    | Returned _ =>
        (Returned (movies.Rated "Movie rated successfully" r),
         (clearUserCache userId s).2)
    | Thrown _ => (Returned (movies.Status500 "Database error"), s)
    end.
Proof.
  intros Hr.
  unfold movies.rate, movies.dbAsync_run, try_catch, bind, await, ret.
  rewrite Hr. by destruct (db _).
Qed.

(** X16. A like, an unlike or a rating that the database accepts
    invalidates the user's recommendations before the handler answers: for
    every limit, the user's next personalized call reads the tables and
    asks the ranking service, whatever was cached before; and the mutation
    itself sends nothing to the ranking service. *)
Theorem accepted_mutation_forces_fresh_recommendations
    (db : movies.statement → completion unit) (userId limit : Z)
    (movieId : string) (r : float) (s : state) (w : world)
    (ratings : list rating_row) (likes : list like_row) :
  select_ratings w userId = Returned ratings →
  select_likes w userId = Returned likes →
  let fresh := sent s ++ [recommendations_call userId limit ratings likes] in
  (db (movies.InsertLike userId movieId) = Returned tt →
     (movies.like db userId movieId s).1
       = Returned (movies.Liked "Movie liked" true)
     ∧ sent (movies.like db userId movieId s).2 = sent s
     ∧ sent (getPersonalizedRecommendations w userId limit
               (movies.like db userId movieId s).2).2 = fresh)
  ∧ (db (movies.DeleteLike userId movieId) = Returned tt →
     (movies.unlike db userId movieId s).1
       = Returned (movies.Liked "Movie unliked" false)
     ∧ sent (movies.unlike db userId movieId s).2 = sent s
     ∧ sent (getPersonalizedRecommendations w userId limit
               (movies.unlike db userId movieId s).2).2 = fresh)
  ∧ (movies.out_of_range r = false →
     db (movies.UpsertRating userId movieId r) = Returned tt →
     (movies.rate db userId movieId (Some r) s).1
       = Returned (movies.Rated "Movie rated successfully" r)
     ∧ sent (movies.rate db userId movieId (Some r) s).2 = sent s
     ∧ sent (getPersonalizedRecommendations w userId limit
               (movies.rate db userId movieId (Some r) s).2).2 = fresh).
Proof.
  intros Hr Hl fresh. subst fresh.
  pose proof (personalized_posts_after_clear userId limit s w ratings likes
                Hr Hl) as Hsent.
  split; [|split].
  - intros Hdb. rewrite like_cases, Hdb. done.
  - intros Hdb. rewrite unlike_cases, Hdb. done.
  - intros Hrange Hdb. rewrite (rate_cases _ _ _ _ _ Hrange), Hdb. done.
Qed.

Lemma accepted_mutation_forces_fresh_recommendations_witness :
  sent (getPersonalizedRecommendations online 42 10
          (movies.like (λ _, Returned tt) 42 "603" three_entries).2).2
    = sent three_entries
        ++ [recommendations_call 42 10 sample_ratings sample_likes].
Proof.
  destruct (accepted_mutation_forces_fresh_recommendations
              (λ _, Returned tt) 42 10 "603" 4.5%float three_entries online
              sample_ratings sample_likes eq_refl eq_refl) as [Hlike _].
  apply (Hlike eq_refl).
Defined.

(** X17. A mutation that the database rejects is answered with 500 and
    leaves the cache as it was; a rating that is absent, zero, below 1 or
    above 5 is answered with 400 whatever the database would do: no
    statement is run for it and the cache is left as it was. *)
Theorem refused_mutation_leaves_cache
    (db : movies.statement → completion unit) (userId : Z)
    (movieId : string) (r : float) (s : state) :
  (∀ e, db (movies.InsertLike userId movieId) = Thrown e →
     movies.like db userId movieId s
       = (Returned (movies.Status500 "Database error"), s))
  ∧ (∀ e, db (movies.DeleteLike userId movieId) = Thrown e →
     movies.unlike db userId movieId s
       = (Returned (movies.Status500 "Database error"), s))
  ∧ (∀ e, movies.out_of_range r = false →
     db (movies.UpsertRating userId movieId r) = Thrown e →
     movies.rate db userId movieId (Some r) s
       = (Returned (movies.Status500 "Database error"), s))
  ∧ movies.rate db userId movieId None s
    = (Returned (movies.Status400 "Rating must be between 1 and 5"), s)
  ∧ (movies.out_of_range r = true →
     movies.rate db userId movieId (Some r) s
       = (Returned (movies.Status400 "Rating must be between 1 and 5"), s)).
Proof.
  split; [intros e Hdb; by rewrite like_cases, Hdb|].
  split; [intros e Hdb; by rewrite unlike_cases, Hdb|].
  split; [intros e Hrange Hdb; by rewrite (rate_cases _ _ _ _ _ Hrange), Hdb|].
  split; [done|].
  intros Hrange. unfold movies.rate, try_catch, ret. by rewrite Hrange.
Qed.

(** ** The range of an accepted rating *)

Lemma SFcompare_antisym (x y : SpecFloat.spec_float) :
  SpecFloat.SFcompare y x = CompOpp <$> SpecFloat.SFcompare x y.
Proof.
  destruct x as [sx|sx| |sx mx ex], y as [sy|sy| |sy my ey];
    try done; try (by destruct sx); try (by destruct sy);
    try (by destruct sx, sy).
  unfold SpecFloat.SFcompare.
  change (Pos.compare_cont Eq my mx) with (Pos.compare my mx).
  change (Pos.compare_cont Eq mx my) with (Pos.compare mx my).
  rewrite (Z.compare_antisym ex ey), (Pos.compare_antisym mx my).
  destruct sx, sy; simpl; try done;
    destruct (ex ?= ey); simpl; try done;
    by destruct (mx ?= my)%positive.
Qed.

Lemma SFcompare_None (x y : SpecFloat.spec_float) :
  SpecFloat.SFcompare x y = None →
  SpecFloat.SFeqb x x = false ∨ SpecFloat.SFeqb y y = false.
Proof.
  destruct x as [sx|sx| |sx mx ex], y as [sy|sy| |sy my ey];
    try done; try (by left); try (by right);
    try (by destruct sx); try (by destruct sy); by destruct sx, sy.
Qed.

(** On numbers, [x <= y] is the negation of [y < x]. *)
Lemma float_leb_by_ltb (x y : float) :
  PrimFloat.is_nan x = false → PrimFloat.is_nan y = false →
  (x <=? y)%float = negb (y <? x)%float.
Proof.
  unfold PrimFloat.is_nan. rewrite !negb_false_iff.
  rewrite !FloatAxioms.eqb_spec, FloatAxioms.leb_spec, FloatAxioms.ltb_spec.
  intros Hx Hy. unfold SpecFloat.SFleb, SpecFloat.SFltb.
  rewrite (SFcompare_antisym (Prim2SF x) (Prim2SF y)).
  destruct (SpecFloat.SFcompare (Prim2SF x) (Prim2SF y)) as [[]|] eqn:Hcmp;
    try done.
  destruct (SFcompare_None _ _ Hcmp); congruence.
Qed.

Lemma float_leb_not_nan (x y : float) :
  (x <=? y)%float = true →
  PrimFloat.is_nan x = false ∧ PrimFloat.is_nan y = false.
Proof.
  unfold PrimFloat.is_nan. rewrite !negb_false_iff.
  rewrite !FloatAxioms.eqb_spec, FloatAxioms.leb_spec.
  unfold SpecFloat.SFeqb, SpecFloat.SFleb.
  destruct (Prim2SF x) as [sx|sx| |sx mx ex],
           (Prim2SF y) as [sy|sy| |sy my ey]; try done; intros _;
    split; simpl;
    rewrite ?Z.compare_refl, ?Pos.compare_cont_refl;
    try done; try (by destruct sx); by destruct sy.
Qed.

Lemma float_zero_below_one (r : float) :
  PrimFloat.is_zero r = true → (1 <=? r)%float = false.
Proof.
  unfold PrimFloat.is_zero.
  rewrite FloatAxioms.eqb_spec, FloatAxioms.leb_spec.
  unfold SpecFloat.SFeqb, SpecFloat.SFleb.
  let one := eval vm_compute in (Prim2SF 1) in change (Prim2SF 1) with one.
  let zero := eval vm_compute in (Prim2SF 0) in change (Prim2SF 0) with zero.
  destruct (Prim2SF r) as [s|s| |s m e]; try done; by destruct s.
Qed.

(** X18. A rating reaches the database exactly when it is a number between
    1 and 5, bounds included, which is the range the table [ratings] checks;
    every other number, zero and NaN among them, is answered with 400. *)
Theorem rating_is_accepted_between_1_and_5 (r : float) :
  movies.out_of_range r = false ↔ ((1 <=? r) && (r <=? 5))%float = true.
Proof.
  unfold movies.out_of_range. rewrite !orb_false_iff, andb_true_iff. split.
  - intros [[[Hzero Hnan] Hlow] Hhigh].
    rewrite (float_leb_by_ltb 1 r), (float_leb_by_ltb r 5), Hlow, Hhigh;
      done.
  - intros [Hlow Hhigh].
    destruct (float_leb_not_nan _ _ Hlow) as [_ Hnan].
    rewrite (float_leb_by_ltb 1 r) in Hlow by done.
    rewrite (float_leb_by_ltb r 5) in Hhigh by done.
    apply negb_true_iff in Hlow, Hhigh.
    repeat split; try done.
    destruct (PrimFloat.is_zero r) eqn:Hzero; [|done].
    pose proof (float_zero_below_one r Hzero) as Hone.
    rewrite (float_leb_by_ltb 1 r) in Hone by done.
    by rewrite Hlow in Hone.
Qed.

(** ** Registration and login *)

Lemma register_present (w : auth.world) (b : auth.register_body) :
  auth.missing (auth.username b) = false →
  auth.missing (auth.email b) = false →
  auth.missing (auth.password b) = false →
  auth.register w b =
    match auth.bcrypt_hash w (auth.text (auth.password b)) 10 with
    | None => auth.NoAnswer auth.ErrIsNotDefined
    | Some hashedPassword =>
        match auth.insert_user w (auth.text (auth.username b))
                (auth.text (auth.email b)) hashedPassword
                (auth.genre_or_default (auth.favorite_genre b)) with
        | Thrown err =>
            if includes (message err) "UNIQUE" then
              auth.Json 400 (auth.Failure "Username or email already exists")
            else auth.Json 500 (auth.Failure "Database error")
        | Returned lastID =>
            match auth.jwt_sign w
                    {| auth.token_userId := lastID;
                       auth.token_username := auth.text (auth.username b) |}
            with
            | None => auth.NoAnswer auth.CallbackFailed
            | Some token =>
                auth.Json 201
                  (auth.Success "User registered successfully" token
                     {| auth.user_id := lastID;
                        auth.user_username := auth.text (auth.username b);
                        auth.user_email := auth.text (auth.email b);
                        auth.user_favorite_genre :=
                          auth.genre_or_default (auth.favorite_genre b) |})
            end
        end
    end.
Proof. intros Hu He Hp. unfold auth.register. by rewrite Hu, He, Hp. Qed.

(** X19. Registration checks its fields before anything else: with a
    username, email or password that is absent or empty the answer is 400
    whatever the libraries and the database would do. It answers 201 only
    after the hash of the password, not the password, went into the insert
    that returned the user's id, and the genre answered is the one inserted,
    ['Action'] when the request names none. When hashing is rejected the
    handler sends no answer at all: its [catch] block fails on an undefined
    variable. *)
Theorem register_answers (w : auth.world) (b : auth.register_body) :
  (auth.missing (auth.username b) || auth.missing (auth.email b)
     || auth.missing (auth.password b) = true →
   auth.register w b = auth.Json 400 (auth.Failure "All fields are required"))
  ∧ (∀ message token user,
       auth.register w b = auth.Json 201 (auth.Success message token user) →
       ∃ hashedPassword,
         auth.bcrypt_hash w (auth.text (auth.password b)) 10
           = Some hashedPassword
         ∧ auth.insert_user w (auth.user_username user) (auth.user_email user)
             hashedPassword (auth.user_favorite_genre user)
           = Returned (auth.user_id user)
         ∧ auth.username b = Some (auth.user_username user)
         ∧ auth.email b = Some (auth.user_email user)
         ∧ auth.user_favorite_genre user
           = (if auth.missing (auth.favorite_genre b) then "Action"
              else auth.text (auth.favorite_genre b)))
  ∧ (auth.register w b = auth.NoAnswer auth.ErrIsNotDefined
       ↔ auth.missing (auth.username b) || auth.missing (auth.email b)
           || auth.missing (auth.password b) = false
         ∧ auth.bcrypt_hash w (auth.text (auth.password b)) 10 = None).
Proof.
  destruct (auth.missing (auth.username b) || auth.missing (auth.email b)
            || auth.missing (auth.password b)) eqn:Hmissing.
  - assert (Hreg : auth.register w b
                   = auth.Json 400 (auth.Failure "All fields are required")).
    { unfold auth.register. by rewrite Hmissing. }
    rewrite Hreg. split; [done|]. split; [done|]. split; [done | by intros []].
  - apply orb_false_iff in Hmissing as [Hue Hp].
    apply orb_false_iff in Hue as [Hu He].
    rewrite (register_present w b Hu He Hp).
    split; [done|]. split.
    + intros msg token user.
      destruct (auth.bcrypt_hash w _ 10) as [hashed|]; [|done].
      destruct (auth.insert_user w _ _ hashed _) as [lastID|err] eqn:Hins;
        [|by destruct (includes _ _)].
      destruct (auth.jwt_sign w _) as [tok|]; [|done].
      intros [= <- <- <-]. exists hashed. simpl.
      split; [done|]. split; [done|].
      destruct (auth.username b) as [u|]; [|done].
      destruct (auth.email b) as [e|]; [|done]. done.
    + destruct (auth.bcrypt_hash w _ 10) as [hashed|]; [|done].
      split; [|by intros [_ ?]].
      destruct (auth.insert_user w _ _ hashed _) as [lastID|err];
        [by destruct (auth.jwt_sign w _) | by destruct (includes _ _)].
Qed.

(** X20. Login answers 401 with the one body "Invalid credentials" exactly
    when no user has the email or bcrypt finds that the password does not
    match, so the answer does not tell which of the two it was. *)
Theorem login_refusal_is_uniform (w : auth.world) (b : auth.login_body) :
  auth.missing (auth.login_email b) = false →
  auth.missing (auth.login_password b) = false →
  auth.login w b = auth.Json 401 (auth.Failure "Invalid credentials")
  ↔ auth.select_user w (auth.text (auth.login_email b)) = Returned None
    ∨ ∃ user,
        auth.select_user w (auth.text (auth.login_email b))
          = Returned (Some user)
        ∧ auth.bcrypt_compare w (auth.text (auth.login_password b))
            (auth.row_password user) = Some false.
Proof.
  intros He Hp. unfold auth.login. rewrite He, Hp. simpl.
  destruct (auth.select_user w _) as [[user|]|err].
  - destruct (auth.bcrypt_compare w _ _) as [[|]|] eqn:Hcmp.
    + destruct (auth.jwt_sign w _); split; try done;
        intros [? | (user' & [= <-] & Hno)]; congruence.
    + split; [|done]. intros _. right. by exists user.
    + split; [done|]. intros [? | (user' & [= <-] & Hno)]; congruence.
  - split; [|done]. intros _. by left.
  - split; [done|]. intros [? | (user' & ? & _)]; congruence.
Qed.

Lemma login_refusal_is_uniform_witness :
  auth.login (auth.on_table toy_crypto auth.empty_users)
    {| auth.login_email := Some "nobody@example.org";
       auth.login_password := Some "guess" |}
  = auth.Json 401 (auth.Failure "Invalid credentials").
Proof.
  apply (login_refusal_is_uniform
           (auth.on_table toy_crypto auth.empty_users)
           {| auth.login_email := Some "nobody@example.org";
              auth.login_password := Some "guess" |});
    [reflexivity | reflexivity |].
  left. reflexivity.
Defined.

(** *** On the table [users] *)

Lemma email_not_taken_filter (t : auth.users) (address : string) :
  auth.email_taken t address = false →
  filter (λ row, auth.row_email row = address) (auth.rows t) = [].
Proof.
  unfold auth.email_taken. intros Hfree.
  apply bool_decide_eq_false_1 in Hfree.
  induction (auth.rows t) as [|row rows IH]; [done|].
  rewrite filter_cons. case_decide as Hrow.
  - destruct Hfree. rewrite fmap_cons, Hrow. left.
  - apply IH. intros Hin. apply Hfree. rewrite fmap_cons. by right.
Qed.

Lemma insert_fresh (t : auth.users) (name address pw genre : string) :
  auth.username_taken t name = false →
  auth.email_taken t address = false →
  auth.insert t name address pw genre =
    (Returned (auth.last_id t + 1),
     {| auth.rows :=
          auth.rows t ++ [{| auth.row_id := auth.last_id t + 1;
                             auth.row_username := name;
                             auth.row_email := address;
                             auth.row_password := pw;
                             auth.row_favorite_genre := genre |}];
        auth.last_id := auth.last_id t + 1 |}).
Proof. intros Hu He. unfold auth.insert. by rewrite Hu, He. Qed.

(** X21. Register, then log in: on a table that has neither the username
    nor the email, a registration whose password bcrypt hashes and whose
    token is signed answers 201 with the next id; the row it leaves holds
    the hash; a login with the same email and password, which bcrypt
    matches against that hash, then answers 200 with the same user; and a
    login with a password bcrypt does not match is refused with 401. *)
Theorem register_then_login
    (c : auth.crypto) (t : auth.users) (b : auth.register_body)
    (hashedPassword token token' : string) :
  auth.missing (auth.username b) = false →
  auth.missing (auth.email b) = false →
  auth.missing (auth.password b) = false →
  auth.username_taken t (auth.text (auth.username b)) = false →
  auth.email_taken t (auth.text (auth.email b)) = false →
  auth.hash c (auth.text (auth.password b)) 10 = Some hashedPassword →
  auth.compare c (auth.text (auth.password b)) hashedPassword = Some true →
  let payload := {| auth.token_userId := auth.last_id t + 1;
                    auth.token_username := auth.text (auth.username b) |} in
  let user := {| auth.user_id := auth.last_id t + 1;
                 auth.user_username := auth.text (auth.username b);
                 auth.user_email := auth.text (auth.email b);
                 auth.user_favorite_genre :=
                   auth.genre_or_default (auth.favorite_genre b) |} in
  let t' := auth.after_register c t b in
  (auth.sign c payload = Some token →
   auth.register (auth.on_table c t) b
     = auth.Json 201 (auth.Success "User registered successfully" token user))
  ∧ auth.select t' (auth.text (auth.email b))
    = Some {| auth.row_id := auth.last_id t + 1;
              auth.row_username := auth.text (auth.username b);
              auth.row_email := auth.text (auth.email b);
              auth.row_password := hashedPassword;
              auth.row_favorite_genre :=
                auth.genre_or_default (auth.favorite_genre b) |}
  ∧ (auth.sign c payload = Some token' →
     auth.login (auth.on_table c t')
       {| auth.login_email := auth.email b;
          auth.login_password := auth.password b |}
       = auth.Json 200 (auth.Success "Login successful" token' user))
  ∧ (∀ guess,
       auth.missing (Some guess) = false →
       auth.compare c guess hashedPassword = Some false →
       auth.login (auth.on_table c t')
         {| auth.login_email := auth.email b;
            auth.login_password := Some guess |}
         = auth.Json 401 (auth.Failure "Invalid credentials")).
Proof.
  intros Hu He Hp Hname Haddr Hhash Hcmp payload user t'.
  assert (Ht' : t' = (auth.insert t (auth.text (auth.username b))
                        (auth.text (auth.email b)) hashedPassword
                        (auth.genre_or_default (auth.favorite_genre b))).2).
  { subst t'. unfold auth.after_register. by rewrite Hu, He, Hp, Hhash. }
  rewrite (insert_fresh _ _ _ _ _ Hname Haddr) in Ht'. simpl in Ht'.
  assert (Hsel : auth.select t' (auth.text (auth.email b))
            = Some {| auth.row_id := auth.last_id t + 1;
                      auth.row_username := auth.text (auth.username b);
                      auth.row_email := auth.text (auth.email b);
                      auth.row_password := hashedPassword;
                      auth.row_favorite_genre :=
                        auth.genre_or_default (auth.favorite_genre b) |}).
  { rewrite Ht'. unfold auth.select. simpl.
    rewrite filter_app, (email_not_taken_filter _ _ Haddr). simpl.
    rewrite filter_cons. simpl. by rewrite decide_True. }
  split; [|split; [done|split]].
  - intros Hsign. rewrite (register_present _ _ Hu He Hp). simpl.
    rewrite Hhash, (insert_fresh _ _ _ _ _ Hname Haddr). simpl.
    fold payload. by rewrite Hsign.
  - intros Hsign. unfold auth.login.
    cbn [auth.login_email auth.login_password].
    rewrite He, Hp. simpl. rewrite Hsel. simpl. rewrite Hcmp.
    fold payload. by rewrite Hsign.
  - intros guess Hguess Hno. unfold auth.login.
    cbn [auth.login_email auth.login_password].
    rewrite He, Hguess. simpl. rewrite Hsel. simpl. by rewrite Hno.
Qed.

Lemma register_then_login_witness :
  auth.login
    (auth.on_table toy_crypto
       (auth.after_register toy_crypto auth.empty_users alice))
    {| auth.login_email := auth.email alice;
       auth.login_password := auth.password alice |}
  = auth.Json 200
      (auth.Success "Login successful" "token of alice"
         {| auth.user_id := 1; auth.user_username := "alice";
            auth.user_email := "alice@example.org";
            auth.user_favorite_genre := "Action" |}).
Proof.
  destruct (register_then_login toy_crypto auth.empty_users alice
              "hash of correct horse" "token of alice" "token of alice"
              eq_refl eq_refl eq_refl eq_refl eq_refl eq_refl eq_refl)
    as (_ & _ & Hlogin & _).
  apply Hlogin. reflexivity.
Defined.

(** X22. A registration makes its username and email taken, and a later
    registration that names a taken username or a taken email is answered
    400 "Username or email already exists" and leaves the table as it
    was. *)
Theorem register_refuses_taken_username_or_email
    (c : auth.crypto) (t : auth.users) (b b' : auth.register_body)
    (hashedPassword hashedPassword' : string) :
  auth.missing (auth.username b) = false →
  auth.missing (auth.email b) = false →
  auth.missing (auth.password b) = false →
  auth.hash c (auth.text (auth.password b)) 10 = Some hashedPassword →
  auth.username_taken t (auth.text (auth.username b)) = false →
  auth.email_taken t (auth.text (auth.email b)) = false →
  let t' := auth.after_register c t b in
  auth.username_taken t' (auth.text (auth.username b)) = true
  ∧ auth.email_taken t' (auth.text (auth.email b)) = true
  ∧ (auth.missing (auth.username b') = false →
     auth.missing (auth.email b') = false →
     auth.missing (auth.password b') = false →
     auth.hash c (auth.text (auth.password b')) 10 = Some hashedPassword' →
     auth.username b' = auth.username b ∨ auth.email b' = auth.email b →
     auth.register (auth.on_table c t') b'
       = auth.Json 400 (auth.Failure "Username or email already exists")
     ∧ auth.after_register c t' b' = t').
Proof.
  intros Hu He Hp Hhash Hname Haddr t'.
  assert (Ht' : t' = (auth.insert t (auth.text (auth.username b))
                        (auth.text (auth.email b)) hashedPassword
                        (auth.genre_or_default (auth.favorite_genre b))).2).
  { subst t'. unfold auth.after_register. by rewrite Hu, He, Hp, Hhash. }
  rewrite (insert_fresh _ _ _ _ _ Hname Haddr) in Ht'. simpl in Ht'.
  assert (Hname' : auth.username_taken t' (auth.text (auth.username b)) = true).
  { rewrite Ht'. unfold auth.username_taken. simpl.
    apply bool_decide_eq_true_2. rewrite fmap_app. apply elem_of_app.
    right. simpl. left. }
  assert (Haddr' : auth.email_taken t' (auth.text (auth.email b)) = true).
  { rewrite Ht'. unfold auth.email_taken. simpl.
    apply bool_decide_eq_true_2. rewrite fmap_app. apply elem_of_app.
    right. simpl. left. }
  split; [done|]. split; [done|].
  intros Hu' He' Hp' Hhash' Hsame.
  assert (Hins : auth.insert t' (auth.text (auth.username b'))
                   (auth.text (auth.email b')) hashedPassword'
                   (auth.genre_or_default (auth.favorite_genre b'))
                 = (Thrown (SqliteError
                      "SQLITE_CONSTRAINT: UNIQUE constraint failed: users.username"), t')
                 ∨ auth.insert t' (auth.text (auth.username b'))
                     (auth.text (auth.email b')) hashedPassword'
                     (auth.genre_or_default (auth.favorite_genre b'))
                   = (Thrown (SqliteError
                        "SQLITE_CONSTRAINT: UNIQUE constraint failed: users.email"), t')).
  { unfold auth.insert.
    destruct (auth.username_taken t' (auth.text (auth.username b')))
      eqn:Htaken; [by left|].
    destruct Hsame as [Hsame | Hsame].
    - rewrite Hsame in Htaken. congruence.
    - rewrite Hsame, Haddr'. by right. }
  split.
  - rewrite (register_present _ _ Hu' He' Hp'). simpl. rewrite Hhash'.
    by destruct Hins as [-> | ->].
  - unfold auth.after_register. rewrite Hu', He', Hp', Hhash'.
    by destruct Hins as [-> | ->].
Qed.

Lemma register_refuses_taken_username_or_email_witness :
  auth.register
    (auth.on_table toy_crypto
       (auth.after_register toy_crypto auth.empty_users alice))
    {| auth.username := Some "alice2";
       auth.email := Some "alice@example.org";
       auth.password := Some "other"; auth.favorite_genre := Some "Drama" |}
  = auth.Json 400 (auth.Failure "Username or email already exists").
Proof.
  destruct (register_refuses_taken_username_or_email toy_crypto
              auth.empty_users alice
              {| auth.username := Some "alice2";
                 auth.email := Some "alice@example.org";
                 auth.password := Some "other";
                 auth.favorite_genre := Some "Drama" |}
              "hash of correct horse" "hash of other"
              eq_refl eq_refl eq_refl eq_refl eq_refl eq_refl)
    as (_ & _ & Hagain).
  apply Hagain; [reflexivity.. | by right].
Defined.

(** ** Invariants of the cache over sequences of calls *)

Lemma step_entries (s : state) (call : world * operation) (k : string)
    (item : CacheItem) :
  data (step s call) !! k = Some item →
  data s !! k = Some item ∨ written_by call k item.
Proof.
  destruct call as [w [u l|m l|u l|u|]]; cbn [step].
  - destruct (personalized_writes_only_responses w u l s)
      as [Hd | (ratings & likes & result & Hpost & _ & Hd)]; rewrite Hd.
    + destruct (get_lookup_shrinks (rec_key u l) k (now_at_get w) (data s))
        as [-> | ->]; [by left | done].
    + unfold cache.set. destruct (decide (rec_key u l = k)) as [<-|Hne].
      * rewrite lookup_insert_eq. intros [= <-]. right.
        split; [done|]. split; [done|]. by exists ratings, likes.
      * rewrite lookup_insert_ne by done.
        rewrite (get_other_key _ _ _ _ Hne). by left.
  - destruct (similar_writes_only_responses w m l s)
      as [Hd | (result & Hpost & _ & Hd)]; rewrite Hd.
    + destruct (get_lookup_shrinks (similar_key m l) k (now_at_get w) (data s))
        as [-> | ->]; [by left | done].
    + unfold cache.set. destruct (decide (similar_key m l = k)) as [<-|Hne].
      * rewrite lookup_insert_eq. intros [= <-]. right. by repeat split.
      * rewrite lookup_insert_ne by done.
        rewrite (get_other_key _ _ _ _ Hne). by left.
  - rewrite collaborative_data. by left.
  - rewrite clearUserCache_lookup.
    destruct (includes k (user_fragment u)); [done | by left].
  - rewrite checkHealth_cases.
    destruct (axios_get w health_call); by left.
Qed.

Lemma run_snoc (calls : list (world * operation)) (call : world * operation)
    (s : state) :
  run (calls ++ [call]) s = step (run calls s) call.
Proof. unfold run. by rewrite foldl_app. Qed.

Lemma cache_entries_origin
    (calls : list (world * operation)) (k : string) (item : CacheItem) :
  data (run calls initial) !! k = Some item →
  ∃ call, call ∈ calls ∧ written_by call k item.
Proof.
  revert k item. induction calls as [|call calls IH] using rev_ind;
    intros k item Hk.
  - done.
  - rewrite run_snoc in Hk.
    destruct (step_entries _ _ _ _ Hk) as [Hold | Hnew].
    + destruct (IH k item Hold) as (c & Hin & Hc).
      exists c. split; [|done]. apply elem_of_app. by left.
    + exists call. split; [|done]. apply elem_of_app. right. left.
Qed.

(** X23. Whatever calls were made since the service was loaded, every
    entry in the cache is a payload that the ranking service returned to
    one of those calls, stored under the key of that call and expiring 3600
    (personalized) or 7200 (similarity) seconds after it was written: the
    cache never holds a fallback, a [no_data] result or a collaborative
    result. *)
Theorem cache_holds_only_service_responses
    (calls : list (world * operation)) (k : string) (item : CacheItem) :
  data (run calls initial) !! k = Some item →
  ∃ call, call ∈ calls ∧ written_by call k item.
Proof. apply cache_entries_origin. Qed.

Lemma cache_holds_only_service_responses_witness :
  ∃ call,
    call ∈ [(online, Personalized 7 5); (offline, Similar 603 10);
            (offline, ClearUser 42)]
    ∧ written_by call "rec:user:7:5"
        {| value := sample_result; expiry := 1200 + 3600 * 1000 |}.
Proof.
  apply (cache_holds_only_service_responses
           [(online, Personalized 7 5); (offline, Similar 603 10);
            (offline, ClearUser 42)]).
  vm_compute. reflexivity.
Defined.

(** X24. If every payload of the ranking service is aligned, then after
    any calls every result returned by [getSimilarMovies] and
    [getCollaborativeRecommendations] is aligned, and so is every result
    returned by [getPersonalizedRecommendations] for a limit from 0 to
    10. *)
Theorem results_are_aligned_when_the_service_is
    (calls : list (world * operation)) (w : world) (id limit : Z) :
  Forall (λ call, service_aligned call.1) calls →
  service_aligned w →
  (∀ r, (getSimilarMovies w id limit (run calls initial)).1 = Returned r →
        aligned r)
  ∧ (∀ r, (getCollaborativeRecommendations w id limit
             (run calls initial)).1 = Returned r →
          aligned r)
  ∧ (0 ≤ limit ≤ 10 →
     ∀ r, (getPersonalizedRecommendations w id limit
             (run calls initial)).1 = Returned r →
          aligned r).
Proof.
  intros Hcalls Hw.
  assert (Hcache : ∀ k item,
            data (run calls initial) !! k = Some item → aligned (value item)).
  { intros k item Hk.
    destruct (cache_entries_origin calls k item Hk) as (call & Hin & Hby).
    rewrite Forall_forall in Hcalls. pose proof (Hcalls call Hin) as Hal.
    destruct call as [w' [u l|m l|u l|u|]]; simpl in Hby; try done.
    - destruct Hby as (_ & _ & ratings & likes & Hpost). by eapply Hal.
    - destruct Hby as (_ & _ & Hpost). by eapply Hal. }
  assert (Hhit : ∀ key now hit,
            (cache.get key now (data (run calls initial))).1 = Some hit →
            aligned hit).
  { intros key now hit. unfold cache.get.
    destruct (data (run calls initial) !! key) as [item|] eqn:Hk; [|done].
    destruct (now >? expiry item); [done|]. intros [= <-]. by eapply Hcache. }
  split; [|split].
  - intros r. rewrite getSimilarMovies_cases.
    destruct (cache.get _ _ _) as [[hit|] d] eqn:Hget.
    + intros [= <-]. eapply Hhit. by rewrite Hget.
    + cbv zeta. destruct (axios_post w _) as [result|?] eqn:Hpost;
        intros [= <-]; [by eapply Hw | done].
  - intros r. rewrite getCollaborativeRecommendations_cases.
    destruct (select_ratings w id) as [[|row ratings]|?];
      [by intros [= <-]| |by intros [= <-]].
    cbv zeta. destruct (axios_post w _) as [result|?] eqn:Hpost;
      intros [= <-]; [by eapply Hw | done].
  - intros Hl r. rewrite getPersonalizedRecommendations_cases.
    destruct (cache.get _ _ _) as [[hit|] d] eqn:Hget.
    + intros [= <-]. eapply Hhit. by rewrite Hget.
    + assert (Hfb : ∀ st out, (personalized_fallback limit st).1 = Returned out
                → aligned out).
      { intros st out.
        destruct (personalized_fallback_aligned limit st Hl)
          as (fb & -> & Hids & Hscs & _).
        intros [= <-]. unfold aligned. by rewrite Hids, Hscs. }
      destruct (select_ratings w id) as [ratings|?];
        [destruct (select_likes w id) as [likes|?]|];
        [cbv zeta; destruct (axios_post w _) as [result|?] eqn:Hpost|..];
        try apply Hfb.
      intros [= <-]. by eapply Hw.
Qed.

Lemma online_is_aligned : service_aligned online.
Proof. intros c r [= <-]. reflexivity. Qed.

Lemma results_are_aligned_when_the_service_is_witness :
  (∀ r, (getSimilarMovies online 7 5
           (run [(online, Personalized 7 5)] initial)).1 = Returned r →
        aligned r)
  ∧ (∀ r, (getCollaborativeRecommendations online 7 5
             (run [(online, Personalized 7 5)] initial)).1 = Returned r →
          aligned r)
  ∧ (0 ≤ 5 ≤ 10 →
     ∀ r, (getPersonalizedRecommendations online 7 5
             (run [(online, Personalized 7 5)] initial)).1 = Returned r →
          aligned r).
Proof.
  apply (results_are_aligned_when_the_service_is
           [(online, Personalized 7 5)] online 7 5).
  - apply Forall_cons. split; [exact online_is_aligned | apply Forall_nil_2].
  - exact online_is_aligned.
Defined.
